(** * Connect translation of @neo4j/graphql: a shallow embedding

    The module [translate/create-connect-and-params] (here
    [src/unnamed/part_000]) and [schema/get-custom-resolver-meta]
    ([src/unnamed/part_001]) with its selection-set helpers, modelled
    over untyped JavaScript values. JavaScript objects are ordered
    association lists (insertion order is the order of [Object.entries]);
    thrown exceptions are the [Throw] branch of a small error monad. *)

From Stdlib Require Import String List Bool ZArith Lia.
Import ListNotations.
Open Scope list_scope.
Open Scope string_scope.
Local Set Warnings "-register-all".

(** ** JavaScript values *)

Inductive JSValue : Type :=
| JNull
| JBool (b : bool)
| JNum (z : Z)
| JStr (s : string)
| JList (l : list JSValue)
| JObj (fields : list (string * JSValue)).

(** A JavaScript object, in [Object.entries] order. *)
Definition JSObject := list (string * JSValue).

(** Property read [o[k]]; [None] is [undefined]. *)
Fixpoint assoc (k : string) (o : JSObject) : option JSValue :=
  match o with
  | [] => None
  | (k', v) :: o' => if String.eqb k k' then Some v else assoc k o'
  end.

(** [Object.prototype.hasOwnProperty.call(v, k)]. *)
Definition hasOwnProperty (v : JSValue) (k : string) : bool :=
  match v with
  | JObj fs => existsb (fun kv => String.eqb (fst kv) k) fs
  | _ => false
  end.

(** Optional chaining [v?.[k]]: [undefined] on [null], [undefined] and
    on the primitives and arrays the inputs here never index by a
    field name. *)
Definition getp (v : option JSValue) (k : string) : option JSValue :=
  match v with
  | Some (JObj fs) => assoc k fs
  | _ => None
  end.

(** JavaScript truthiness ([undefined] is [None]). *)
Definition truthy (v : option JSValue) : bool :=
  match v with
  | None | Some JNull => false
  | Some (JBool b) => b
  | Some (JNum z) => negb (Z.eqb z 0)
  | Some (JStr s) => negb (String.eqb s "")
  | Some (JList _) | Some (JObj _) => true
  end.

(** [{ ...o, [k]: v }]: an existing key keeps its position. *)
Fixpoint setKey (k : string) (v : JSValue) (o : JSObject) : JSObject :=
  match o with
  | [] => [(k, v)]
  | (k', v') :: o' =>
      if String.eqb k k' then (k', v) :: o' else (k', v') :: setKey k v o'
  end.

(** [{ ...o, ...p }] for an object [p]. *)
Definition spread (o p : JSObject) : JSObject :=
  fold_left (fun acc kv => setKey (fst kv) (snd kv) acc) p o.

(** [{ ...o, ...v }] for any value: spreading [null], [undefined] or a
    non-object adds no key (the only values reaching it here are the
    [_on] entries, which are objects). *)
Definition spreadValue (o : JSObject) (v : option JSValue) : JSObject :=
  match v with
  | Some (JObj p) => spread o p
  | _ => o
  end.

(** ** Errors and the error monad *)

Inductive JSError : Type :=
| ReferenceError (msg : string)
| TypeError (msg : string)
| PlainError (msg : string).

Inductive result (A : Type) : Type :=
| Ok (a : A)
| Throw (e : JSError).
Arguments Ok {A} a.
Arguments Throw {A} e.

Definition bind {A B} (m : result A) (f : A -> result B) : result B :=
  match m with
  | Ok a => f a
  | Throw e => Throw e
  end.

Notation "x <- m ;; k" := (bind m (fun x => k))
  (at level 61, m at next level, right associativity).

Definition fmap {A B} (f : A -> B) (m : result A) : result B :=
  match m with
  | Ok a => Ok (f a)
  | Throw e => Throw e
  end.

(** ** Schema model *)

(** Which authorization rules an entity carries for the [CONNECT]
    operation. The predicates built by [createAuthPredicates] and the
    strings built by [createAuthAndParams] (not in this module) are kept
    as syntax naming the entity, the variable and the kind of rule. *)
Record AuthRules : Type := mkAuthRules {
  auth_where : bool;   (** [where] rules: visibility filter *)
  auth_allow : bool;   (** [allow] rules: pre-condition *)
  auth_bind : bool     (** [bind] rules: post-condition *)
}.

Record Node : Type := mkNode {
  node_name : string;
  node_labels : string;          (** [getLabelString(context)] *)
  node_auth : option AuthRules   (** [node.auth] *)
}.

Inductive Direction : Type := IN | OUT.

Record RelationField : Type := mkRelationField {
  rf_fieldName : string;
  rf_type : string;
  rf_direction : Direction;
  rf_properties : option string;
  rf_interface : bool;           (** [relationField.interface] is set *)
  rf_union : bool;
  rf_array : bool                (** [relationField.typeMeta.array] *)
}.

Record Context : Type := mkContext {
  subscriptionsEnabled : bool
}.

(** The arguments of [createConnectAndParams]. *)
Record ConnectArgs : Type := mkConnectArgs {
  withVars : list string;
  value : JSValue;
  varName : string;
  relationField : RelationField;
  parentVar : string;
  refNodes : list Node;
  labelOverride : option string;
  parentNode : Node;
  fromCreate : bool;
  insideDoWhen : bool;
  includeRelationshipValidation : bool;
  isFirstLevel : bool
}.

(** ** Helpers on strings and lists *)

Definition nl : string := String (Ascii.ascii_of_nat 10) "".
Definition tab : string := String (Ascii.ascii_of_nat 9) "".
Definition dq : string := String (Ascii.ascii_of_nat 34) "".
Definition bs : string := String (Ascii.ascii_of_nat 92) "".

(** [Array.prototype.join(sep)]. *)
Fixpoint join (sep : string) (l : list string) : string :=
  match l with
  | [] => ""
  | [x] => x
  | x :: l' => x ++ sep ++ join sep l'
  end.

(** [Array.prototype.reduce(f, init)] for a callback that may throw:
    the callback receives the accumulator, the element and its index. *)
Fixpoint reduceM {A B : Type} (f : B -> A -> nat -> result B)
    (l : list A) (acc : B) (i : nat) : result B :=
  match l with
  | [] => Ok acc
  | x :: l' => acc' <- f acc x i ;; reduceM f l' acc' (S i)
  end.

(** [filterMetaVariable] (subscriptions helper, not in this module): drops
    the [meta] variable from a carry-over list. *)
Definition filterMetaVariable (vars : list string) : list string :=
  filter (fun v => negb (String.eqb v "meta")) vars.

(** ** Cypher clauses built by [createSubqueryContents] *)

Inductive Pred : Type :=
| PWhere (target : string) (input : JSObject)
      (** [createWherePredicate({ targetElement, whereInput })] *)
| PAuth (kind : string) (entity : string) (var : string)
      (** [createAuthPredicates] for [CONNECT] rules of one kind *)
| PValidate (p : Pred) (msg : string)
      (** [new Cypher.apoc.ValidatePredicate(p, msg)] *)
| PAnd (ps : list Pred).
      (** [Cypher.and(...ps)] *)

(** [createWherePredicate] (filter compiler, not in this module) is kept
    as the syntax of its call; an empty filter gives no predicate. *)
Definition createWherePredicate (target : string) (input : JSObject) : option Pred :=
  match input with
  | [] => None
  | _ => Some (PWhere target input)
  end.

Definition hasAuth (n : Node) : bool :=
  match node_auth n with Some _ => true | None => false end.

(** [createAuthPredicates({ entity, operations: "CONNECT", where })]. *)
Definition authWherePredicate (n : Node) (var : string) : option Pred :=
  match node_auth n with
  | Some r => if auth_where r then Some (PAuth "where" (node_name n) var) else None
  | None => None
  end.

(** [createAuthPredicates({ entity, operations: "CONNECT", allow })]. *)
Definition authAllowPredicate (n : Node) (var : string) : option Pred :=
  match node_auth n with
  | Some r => if auth_allow r then Some (PAuth "allow" (node_name n) var) else None
  | None => None
  end.

(** [createAuthAndParams({ entity, operations: "CONNECT", where })]: the
    string form, with its (here empty) parameters. *)
Definition authWhereString (n : Node) (var : string) : string * JSObject :=
  match node_auth n with
  | Some r =>
      if auth_where r then (node_name n ++ "_CONNECT_where(" ++ var ++ ")", [])
      else ("", [])
  | None => ("", [])
  end.

Definition AUTH_FORBIDDEN_ERROR : string := "@neo4j/graphql/FORBIDDEN".

(** [new Cypher.OptionalMatch(nodeRef)] with its [.with] and [.where]
    calls; successive [.where] calls are conjoined. *)
Record MatchClause : Type := mkMatch {
  mc_var : string;
  mc_labels : string;
  mc_withs : list (list string);
  mc_wheres : list Pred
}.

Definition addWhere (m : MatchClause) (p : Pred) : MatchClause :=
  mkMatch (mc_var m) (mc_labels m) (mc_withs m) (mc_wheres m ++ [p])%list.

Definition addWhereOpt (m : MatchClause) (p : option Pred) : MatchClause :=
  match p with Some p' => addWhere m p' | None => m end.

(** [mergeOrCreateClause]. *)
Inductive WriteClause : Type :=
| WMerge (source : string) (target : string) (relType : string)
      (** [new Cypher.Merge(relationshipPattern)] *)
| WCreateVariable (v : string).
      (** [CREATE ${relationship.getCypher(env)}] for the fresh
          [relationship = new Cypher.Variable()] of line 75 *)

(** The fresh [Cypher.Variable] of line 75, as the builder names it. *)
Definition freshRelationshipVariable : string := "var0".

(** The clause objects [createSubqueryContents] builds (lines 73-330). *)
Record Built : Type := mkBuilt {
  b_match : MatchClause;
  b_write : WriteClause;
  b_setEdge : option string;          (** [setA], when the field has properties *)
  b_eventMeta : bool;                 (** [eventMetaWithClause] in the inner call *)
  b_innerReturn : string;
  b_finalWith : option string;
  b_outerReturn : string
}.

(** ** [createSubqueryContents] *)

(** The root-level filter of lines 99-116: every key but [_on], except
    the keys for which [connect.where.node?._on?.[relatedNode.name]?.[k]]
    is truthy. *)
Definition rootWhereInput (relatedName : string) (node : JSObject) : JSObject :=
  fold_left
    (fun args kv =>
       let '(k, v) := kv in
       if negb (String.eqb k "_on") then
         if truthy (getp (getp (assoc "_on" node) relatedName) k) then args
         else setKey k v args
       else args)
    node [].

(** The [_on] filter of lines 122-140: every key but [_on], then the
    entries of [_on[relatedNode.name]] spread in place of [_on]. *)
Definition onWhereInput (relatedName : string) (node : JSObject) : JSObject :=
  fold_left
    (fun args kv =>
       let '(k, v) := kv in
       if negb (String.eqb k "_on") then setKey k v args
       else if hasOwnProperty v relatedName then spreadValue args (getp (Some v) relatedName)
       else args)
    node [].

(** Line 91-95: [_on] is the only key of the node filter and has no
    entry for this implementation. *)
Definition onlyOnWithoutImplementation (relatedName : string) (node : JSObject) : bool :=
  match assoc "_on" node with
  | Some on =>
      truthy (Some on) && Nat.eqb (length node) 1 && negb (hasOwnProperty on relatedName)
  | None => false
  end.

(** [connect.where.node] once [connect.where] is truthy; reading [_on] of
    a missing node throws (a non-object node is refused the same way:
    the input types only admit objects there). *)
Definition whereNode (where_ : option JSValue) : result JSObject :=
  match getp where_ "node" with
  | Some (JObj fs) => Ok fs
  | _ => Throw (TypeError "Cannot read properties of undefined (reading '_on')")
  end.

(** [labelOverride ? `:${labelOverride}` : labels]. *)
Definition overriddenLabels (labelOverride : option string) (relatedNode : Node) : string :=
  match labelOverride with
  | Some l => if String.eqb l "" then node_labels relatedNode else ":" ++ l
  | None => node_labels relatedNode
  end.

(** Lines 89-145: the filter predicates of the optional match, or [None]
    when the entry is skipped (line 96). *)
Definition connectWherePredicates (relatedNode : Node) (nodeRef : string)
    (connect : JSValue) : result (option (list Pred)) :=
  let where_ := getp (Some connect) "where" in
  if truthy where_ then
    node <- whereNode where_ ;;
    if onlyOnWithoutImplementation (node_name relatedNode) node then Ok None
    else
      let root := createWherePredicate nodeRef (rootWhereInput (node_name relatedNode) node) in
      let on :=
        if truthy (getp (assoc "_on" node) (node_name relatedNode))
        then createWherePredicate nodeRef (onWhereInput (node_name relatedNode) node)
        else None in
      Ok (Some (match root with Some p => [p] | None => [] end
                ++ match on with Some p => [p] | None => [] end)%list)
  else Ok (Some []).

(** Lines 169-205: the [allow] pre-conditions of the related node and,
    unless the parent was created in this operation, of the parent. *)
Definition preAuth (relatedNode parentNode : Node) (nodeRef parentRef : string)
    (fromCreate : bool) : list Pred :=
  let nodeMatrix :=
    ((relatedNode, nodeRef) :: (if fromCreate then [] else [(parentNode, parentRef)]))%list in
  fold_left
    (fun result nr =>
       let '(n, r) := nr in
       if negb (hasAuth n) then result
       else match authAllowPredicate n r with
            | Some p => (result ++ [p])%list
            | None => result
            end)
    nodeMatrix [].

(** Lines 73-330: the clause objects, or [None] for a skipped entry. *)
Definition buildConnectClauses (ctx : Context) (args : ConnectArgs)
    (relatedNode : Node) (connect : JSValue) : result (option Built) :=
  let nodeRef := varName args in
  let parentRef := parentVar args in
  let metaWith := (filterMetaVariable (withVars args) ++ ["[] AS meta"])%list in
  let m0 := mkMatch nodeRef (overriddenLabels (labelOverride args) relatedNode)
              (withVars args :: (if subscriptionsEnabled ctx then [metaWith] else []))%list
              [] in
  wh <- connectWherePredicates relatedNode nodeRef connect ;;
  match wh with
  | None => Ok None
  | Some wheres =>
      let m1 := fold_left addWhere wheres m0 in
      let m2 := if hasAuth relatedNode
                then addWhereOpt m1 (authWherePredicate relatedNode nodeRef) else m1 in
      let pre := preAuth relatedNode (parentNode args) nodeRef parentRef (fromCreate args) in
      let quote := if insideDoWhen args then bs ++ dq else dq in
      let m3 := match pre with
                | [] => m2
                | _ => addWhere m2 (PAnd (map (fun p =>
                          PValidate p (quote ++ AUTH_FORBIDDEN_ERROR ++ quote)) pre))
                end in
      let write :=
        if truthy (getp (Some connect) "createAsDuplicate")
        then WCreateVariable freshRelationshipVariable
        else WMerge nodeRef parentRef (rf_type (relationField args)) in
      let setA := match rf_properties (relationField args) with
                  | Some _ => Some "SET edge properties"
                  | None => None
                  end in
      let subs := subscriptionsEnabled ctx in
      Ok (Some (mkBuilt m3 write setA subs
                  (if subs then "collect(meta) AS update_meta" else "collect(*) AS _")
                  (if subs then Some "meta  update_meta AS *" else None)
                  (if subs then "collect(meta) AS connect_meta" else "count(*) AS _")))
  end.

(** [createSubqueryContents(relatedNode, connect, index)]. A skipped entry
    returns [{ subquery: "", params: {} }]. Otherwise, after the clauses
    are built, line 341 reads the undeclared [nodeName] (when
    [includeRelationshipValidation]) and line 361 calls [push] on the
    undeclared [subquery]: both throw, so lines 361-526 never run. *)
Definition createSubqueryContents (ctx : Context) (args : ConnectArgs)
    (relatedNode : Node) (connect : JSValue) (index : nat) : result (string * JSObject) :=
  b <- buildConnectClauses ctx args relatedNode connect ;;
  match b with
  | None => Ok ("", [])
  | Some _ =>
      if includeRelationshipValidation args
      then Throw (ReferenceError "nodeName is not defined")
      else Throw (ReferenceError "subquery is not defined")
  end.

(** ** [reducer] and [createConnectAndParams] *)

(** [Res]: the lines pushed so far and the parameters. *)
Definition Res : Type := (list string * JSObject)%type.

Definition withLine (vars : list string) : string := "WITH " ++ join ", " vars.

(** Lines 551-557: the subqueries of the implementations of an interface
    field; an empty subquery is dropped. *)
Definition interfaceSubqueries (ctx : Context) (args : ConnectArgs)
    (connect : JSValue) (params : JSObject) : result (list string * JSObject) :=
  reduceM
    (fun acc refNode i =>
       let '(subqueries, ps) := acc in
       sq <- createSubqueryContents ctx args refNode connect i ;;
       let '(text, p) := sq in
       if String.eqb text "" then Ok acc
       else Ok ((subqueries ++ [text])%list, spread ps p))
    (refNodes args) ([], params) 0.

(** The separator of line 563 (with subscriptions) or 565. *)
Definition interfaceSeparator (ctx : Context) (args : ConnectArgs) : string :=
  if subscriptionsEnabled ctx then
    nl ++ "}" ++ nl ++ "WITH " ++ join ", " (filterMetaVariable (withVars args))
    ++ ", connect_meta + meta AS meta" ++ nl ++ "CALL {" ++ nl ++ tab
  else nl ++ "}" ++ nl ++ "CALL {" ++ nl ++ tab.

Definition metaLine (args : ConnectArgs) : string :=
  "WITH connect_meta + meta AS meta, " ++ join ", " (filterMetaVariable (withVars args)).

(** [reducer(res, connect, index)], lines 529-585. *)
Definition reducer (ctx : Context) (args : ConnectArgs) (res : Res)
    (connect : JSValue) (index : nat) : result Res :=
  let '(connects0, params0) := res in
  let '(connects1, params1) :=
    if hasAuth (parentNode args) && negb (fromCreate args) then
      let '(s, p) := authWhereString (parentNode args) (parentVar args) in
      if String.eqb s "" then (connects0, params0)
      else ((connects0 ++ [withLine (withVars args); String.append "WHERE " s])%list, spread params0 p)
    else (connects0, params0) in
  let connects2 :=
    if isFirstLevel args then (connects1 ++ [withLine (withVars args)])%list else connects1 in
  innerp <-
    (if rf_interface (relationField args) then
       sp <- interfaceSubqueries ctx args connect params1 ;;
       let '(subqueries, params2) := sp in
       match subqueries with
       | [] => Ok ([], params2)
       | _ => Ok ([join (interfaceSeparator ctx args) subqueries], params2)
       end
     else
       match refNodes args with
       | [] => Throw (TypeError "Cannot read properties of undefined (reading 'getLabelString')")
       | n :: _ =>
           sq <- createSubqueryContents ctx args n connect index ;;
           Ok ([fst sq], spread params1 (snd sq))
       end) ;;
  let '(inner, params3) := innerp in
  match inner with
  | [] => Ok (connects2, params3)
  | _ =>
      Ok ((connects2 ++ ["CALL {"] ++ inner ++ ["}"]
           ++ (if subscriptionsEnabled ctx then [metaLine args] else []))%list, params3)
  end.

(** The connect entries: [relationField.typeMeta.array ? value : [value]];
    [reduce] on a non-array throws. *)
Definition connectEntries (args : ConnectArgs) : result (list JSValue) :=
  if rf_array (relationField args) then
    match value args with
    | JList l => Ok l
    | _ => Throw (TypeError "value.reduce is not a function")
    end
  else Ok [value args].

(** Lines 587-590, before the final [join]. *)
Definition createConnectLines (ctx : Context) (args : ConnectArgs) : result Res :=
  entries <- connectEntries args ;;
  reduceM (reducer ctx args) entries ([], []) 0.

(** [createConnectAndParams]: [[connects.join("\n"), params]]. *)
Definition createConnectAndParams (ctx : Context) (args : ConnectArgs)
    : result (string * JSObject) :=
  fmap (fun r => (join nl (fst r), snd r)) (createConnectLines ctx args).

(** ** [getCustomResolverMeta] and its module-level flag *)

Inductive ArgumentValue : Type :=
| AString (s : string)              (** [Kind.STRING] *)
| AList (l : list string)           (** [Kind.LIST] of strings *)
| AOther.                           (** any other value kind *)

Record Directive : Type := mkDirective {
  directive_name : string;
  directive_arguments : list (string * ArgumentValue)
}.

Record FieldDefinition : Type := mkFieldDefinition {
  field_name : string;
  field_directives : option (list Directive)
}.

Inductive DefinitionKind : Type := ObjectTypeDefinition | InterfaceTypeDefinition.

(** The module state: the flag [deprecationWarningShown] and what was
    written by [console.warn]. *)
Record ModuleState : Type := mkModuleState {
  deprecationWarningShown : bool;
  consoleWarnings : list string
}.

Definition initialModuleState : ModuleState := mkModuleState false [].

Definition DEPRECATION_WARNING : string :=
  "The @computed directive has been deprecated and will be removed in version 4.0.0. Please use "
  ++ "the @customResolver directive instead. More information can be found at "
  ++ "https://neo4j.com/docs/graphql-manual/current/guides/v4-migration/#_computed_renamed_to_customresolver.".

(** [directives?.find((x) => x.name.value === n)]. *)
Definition findDirective (ds : option (list Directive)) (n : string) : option Directive :=
  match ds with
  | Some l => find (fun d => String.eqb (directive_name d) n) l
  | None => None
  end.

(** [a || b] on two optional directives or arguments. *)
Definition orElse {A : Type} (a b : option A) : option A :=
  match a with Some _ => a | None => b end.

Definition fieldDirective (field : FieldDefinition) (interfaceField : option FieldDefinition)
    (n : string) : option Directive :=
  orElse (findDirective (field_directives field) n)
         (match interfaceField with
          | Some f => findDirective (field_directives f) n
          | None => None
          end).

(** [directive?.arguments?.find((arg) => arg.name.value === n)]. *)
Definition findArgument (d : option Directive) (n : string) : option ArgumentValue :=
  match d with
  | Some d' => option_map snd (find (fun a => String.eqb (fst a) n) (directive_arguments d'))
  | None => None
  end.

(** [removeDuplicates]: first occurrences, in order. *)
Definition removeDuplicates (l : list string) : list string :=
  fold_left (fun acc x => if existsb (String.eqb x) acc then acc else (acc ++ [x])%list) l [].

Section CustomResolverMeta.

(** The resolve tree of the selection set [{ ... }] of the required
    fields: [parse] followed by [selectionSetToResolveTree], which may
    throw. *)
Variable ResolveTree : Type.
Variable selectionSetToResolveTree : string -> result ResolveTree.

(** [getCustomResolverMeta]: the module state after the call, and its
    outcome. [customResolvers] lists the fields with a resolver. *)
Definition getCustomResolverMeta (st : ModuleState) (field : FieldDefinition)
    (objectKind : DefinitionKind) (customResolvers : list string)
    (interfaceField : option FieldDefinition)
    : ModuleState * result (option ResolveTree) :=
  let deprecatedDirective := fieldDirective field interfaceField "computed" in
  let st' :=
    match deprecatedDirective with
    | Some _ =>
        if deprecationWarningShown st then st
        else mkModuleState true (consoleWarnings st ++ [DEPRECATION_WARNING])%list
    | None => st
    end in
  let directive := fieldDirective field interfaceField "customResolver" in
  (st',
   match directive, deprecatedDirective with
   | None, None => Ok None
   | _, _ =>
       if match objectKind with InterfaceTypeDefinition => false | ObjectTypeDefinition => true end
          && match directive with Some _ => true | None => false end
          && negb (existsb (String.eqb (field_name field)) customResolvers)
       then Throw (PlainError ("Custom resolver for " ++ field_name field ++ " has not been provided"))
       else
         match orElse (findArgument directive "requires") (findArgument deprecatedDirective "from") with
         | Some (AString s) => fmap Some (selectionSetToResolveTree ("{ " ++ s ++ " }"))
         | Some (AList l) =>
             fmap Some (selectionSetToResolveTree ("{ " ++ join " " (removeDuplicates l) ++ " }"))
         | _ => Ok None
         end
   end).

(** One call of [getCustomResolverMeta] with its arguments. *)
Record ResolverCall : Type := mkResolverCall {
  call_field : FieldDefinition;
  call_kind : DefinitionKind;
  call_resolvers : list string;
  call_interfaceField : option FieldDefinition
}.

Definition runCall (st : ModuleState) (c : ResolverCall) : ModuleState :=
  fst (getCustomResolverMeta st (call_field c) (call_kind c) (call_resolvers c)
         (call_interfaceField c)).

(** A sequence of calls in one process (a call that throws still leaves
    its state change behind). *)
Definition runCalls (st : ModuleState) (calls : list ResolverCall) : ModuleState :=
  fold_left runCall calls st.

Definition callHasDeprecatedDirective (c : ResolverCall) : bool :=
  match fieldDirective (call_field c) (call_interfaceField c) "computed" with
  | Some _ => true
  | None => false
  end.

End CustomResolverMeta.

(** ** [selectionSetToResolveTree] and its helpers *)

(** The GraphQL AST nodes the helpers read. A [TypeNode] is a named type
    under list and non-null wrappers. *)
Inductive TypeNode : Type :=
| NamedType (name : string)
| ListType (type : TypeNode)
| NonNullType (type : TypeNode).

(** [FieldDefinitionNode]: its name and its type. *)
Record FieldDefinitionNode : Type := mkFieldDefinitionNode {
  fdn_name : string;
  fdn_type : TypeNode
}.

(** [ObjectTypeDefinitionNode] and [InterfaceTypeDefinitionNode]: the name
    and the optional [fields]. *)
Record TypeDefinitionNode : Type := mkTypeDefinitionNode {
  tdn_name : string;
  tdn_fields : option (list FieldDefinitionNode)
}.

(** [UnionTypeDefinitionNode]: the name and the optional member [types]. *)
Record UnionTypeDefinitionNode : Type := mkUnionTypeDefinitionNode {
  utn_name : string;
  utn_types : option (list string)
}.

(** A selection: a field with its optional selection set, an inline
    fragment with its optional type condition, or a fragment spread. *)
Inductive Selection : Type :=
| SField (name : string) (selectionSet : option (list Selection))
| SInlineFragment (typeCondition : option string) (selectionSet : option (list Selection))
| SFragmentSpread (name : string).

(** A definition of a parsed document. *)
Inductive DocumentDefinition : Type :=
| OperationDefinition (selectionSet : list Selection)
| OtherDefinition.

Definition INVALID_SELECTION_SET_ERROR : string :=
  "Invalid selection set passed to @customResolver required".

Definition NESTED_TYPE_ERROR : string :=
  "Cannot find the type of a related field that is required by a custom resolver".

(** [getNestedType] on a defined type: the recursion through
    [type.type] down to the [NAMED_TYPE]. *)
Fixpoint getNestedTypeName (type : TypeNode) : string :=
  match type with
  | NamedType n => n
  | ListType t | NonNullType t => getNestedTypeName t
  end.

(** [getNestedType(type)]: an [undefined] type throws. *)
Definition getNestedType (type : option TypeNode) : result string :=
  match type with
  | None => Throw (PlainError NESTED_TYPE_ERROR)
  | Some t => Ok (getNestedTypeName t)
  end.

(** [generateResolveTree({ name, fieldsByTypeName })] of
    [translate/utils/resolveTree] (imported, not in this module): one
    entry keyed by the name, no alias and no arguments. *)
Definition generateResolveTree (name : string) (fieldsByTypeName : JSObject) : JSObject :=
  [(name, JObj [("name", JStr name); ("alias", JStr name); ("args", JObj []);
                ("fieldsByTypeName", JObj fieldsByTypeName)])].

Section ResolveTrees.

Variable objects : list TypeDefinitionNode.
Variable interfaces : list TypeDefinitionNode.
Variable unions : list UnionTypeDefinitionNode.

(** [[...objects, ...interfaces].find((obj) => obj.name.value === n)]. *)
Definition findObjectOrInterface (n : string) : option TypeDefinitionNode :=
  find (fun o => String.eqb (tdn_name o) n) (objects ++ interfaces).

(** [innerObjectFields] of lines 213-220: the fields of the object or
    interface named [fieldType], or else the fields of the members of the
    union named [fieldType]; [undefined] when there is neither. *)
Definition innerObjectFields (fieldType : string) : option (list FieldDefinitionNode) :=
  let unionImplementations :=
    match find (fun u => String.eqb (utn_name u) fieldType) unions with
    | Some u => utn_types u
    | None => None
    end in
  match match findObjectOrInterface fieldType with
        | Some o => tdn_fields o
        | None => None
        end with
  | Some fs => Some fs
  | None =>
      option_map
        (flat_map (fun implementation =>
           match findObjectOrInterface implementation with
           | Some o => match tdn_fields o with Some fs => fs | None => [] end
           | None => []
           end))
        unionImplementations
  end.

(** The callback of the [reduce] of lines 184-252 on one [selection],
    with the accumulator [acc]; a nested selection set is reduced from
    [{}] by the inner [fix], which is [nestedSelectionSetToResolveTrees]
    below. *)
Fixpoint selectionReducer (objectFields : list FieldDefinitionNode)
    (outerFieldType : option string) (acc : JSObject) (selection : Selection)
    {struct selection} : result JSObject :=
  let nested :=
    fix nested (objectFields : list FieldDefinitionNode) (outerFieldType : option string)
        (selections : list Selection) (acc : JSObject) {struct selections} : result JSObject :=
      match selections with
      | [] => Ok acc
      | s :: rest =>
          acc' <- selectionReducer objectFields outerFieldType acc s ;;
          nested objectFields outerFieldType rest acc'
      end in
  match selection with
  | SFragmentSpread _ =>
      Throw (PlainError "Fragment spreads are not supported in customResolver requires")
  | SInlineFragment _ None => Ok acc
  | SInlineFragment typeCondition (Some ss) =>
      nestedResolveTree <- nested objectFields None ss [] ;;
      match typeCondition with
      | Some fieldType =>
          if String.eqb fieldType "" then Throw (PlainError "Cannot find fragment type")
          else Ok (setKey fieldType (JObj nestedResolveTree) acc)
      | None => Throw (PlainError "Cannot find fragment type")
      end
  | SField name selectionSet =>
      nestedResolveTree <-
        match selectionSet with
        | None => Ok []
        | Some ss =>
            fieldType <-
              getNestedType
                (option_map fdn_type
                   (find (fun f => String.eqb (fdn_name f) name) objectFields)) ;;
            match innerObjectFields fieldType with
            | None => Throw (PlainError "")
            | Some inner => nested inner (Some fieldType) ss []
            end
        end ;;
      match outerFieldType with
      | Some o =>
          if String.eqb o "" then Ok (spread acc (generateResolveTree name nestedResolveTree))
          else Ok (setKey o (JObj (spread (spreadValue [] (assoc o acc))
                                         (generateResolveTree name nestedResolveTree))) acc)
      | None => Ok (spread acc (generateResolveTree name nestedResolveTree))
      end
  end.

(** [nestedSelectionSetToResolveTrees(objectFields, ..., selectionSet,
    outerFieldType)]: [selectionSet.selections.reduce(..., acc)]. *)
Fixpoint nestedSelectionSetToResolveTrees (objectFields : list FieldDefinitionNode)
    (outerFieldType : option string) (selections : list Selection) (acc : JSObject)
    : result JSObject :=
  match selections with
  | [] => Ok acc
  | selection :: rest =>
      acc' <- selectionReducer objectFields outerFieldType acc selection ;;
      nestedSelectionSetToResolveTrees objectFields outerFieldType rest acc'
  end.

(** [selectionSetToResolveTree(objectFields, ..., document)]: a document
    of exactly one operation definition. *)
Definition selectionSetToResolveTree (objectFields : list FieldDefinitionNode)
    (document : list DocumentDefinition) : result JSObject :=
  match document with
  | [OperationDefinition ss] => nestedSelectionSetToResolveTrees objectFields None ss []
  | _ => Throw (PlainError INVALID_SELECTION_SET_ERROR)
  end.

End ResolveTrees.

(** A selection contains a fragment spread at some depth. *)
Fixpoint hasFragmentSpread (s : Selection) : bool :=
  match s with
  | SFragmentSpread _ => true
  | SField _ (Some ss) | SInlineFragment _ (Some ss) => existsb hasFragmentSpread ss
  | _ => false
  end.

(** The number of selection nodes, nested ones included. *)
Fixpoint selectionSize (s : Selection) : nat :=
  match s with
  | SField _ (Some ss) | SInlineFragment _ (Some ss) => S (list_sum (map selectionSize ss))
  | _ => 1
  end.

(** One step of [removeDuplicates]. *)
Definition dedupStep (acc : list string) (x : string) : list string :=
  if existsb (String.eqb x) acc then acc else (acc ++ [x])%list.

(** The resolve tree of a required field with no sub-selection. *)
Definition leafResolveTree (n : string) : JSValue :=
  JObj [("name", JStr n); ("alias", JStr n); ("args", JObj []); ("fieldsByTypeName", JObj [])].

(** ** Read translation: projection of computed fields around the sort *)

(** A selected or sorted field; [sf_computed] for a [@cypher] field. *)
Record SelField : Type := mkSelField {
  sf_name : string;
  sf_computed : bool
}.

Inductive ReadClause : Type :=
| RMatch (label : string)
| RProject (fields : list string)       (** projection before the sort *)
| ROrderBy (keys : list string)
| RSkip
| RLimit
| RProjectRest (fields : list string).  (** projection after pagination *)

Definition sortedOn (sort : list SelField) (f : SelField) : bool :=
  existsb (fun g => String.eqb (sf_name g) (sf_name f)) sort.

(** Modelled from the spec: the read translation of a sorted, paginated
    connection (translate-read and the projection builder are not in this
    snapshot; only their tests are). Following the sorting rule of the
    read compiler, the computed fields the sort uses are projected before
    [ORDER BY], [SKIP] and [LIMIT]; every other selected computed field is
    projected after them. *)
Definition translateReadConnection (label : string) (selection sort : list SelField)
    (offset limit : bool) : list ReadClause :=
  let sortComputed := filter sf_computed sort in
  ([RMatch label; RProject (map sf_name sortComputed); ROrderBy (map sf_name sort)]
   ++ (if offset then [RSkip] else [])
   ++ (if limit then [RLimit] else [])
   ++ [RProjectRest (map sf_name
         (filter (fun f => sf_computed f && negb (sortedOn sortComputed f)) selection))])%list.

(** ** Concrete inputs *)

(** Entities of the connect tests: [Actor] without rules, [Movie] with
    [where], [allow] and [bind] rules for [CONNECT]. *)
Definition Actor : Node := mkNode "Actor" ":Actor" None.
Definition Movie : Node := mkNode "Movie" ":Movie" (Some (mkAuthRules true true true)).
Definition Series : Node := mkNode "Series" ":Series" None.

(** [Movie.actors: [Actor!]! @relationship(type: "ACTED_IN", direction: IN)]. *)
Definition actorsField : RelationField :=
  mkRelationField "actors" "ACTED_IN" IN None false false true.

(** An interface-typed field whose implementations are [Movie] and [Series]. *)
Definition productionsField : RelationField :=
  mkRelationField "productions" "ACTED_IN" OUT None true false true.

(** [{ where: { node: { name: n } } }]. *)
Definition connectByName (n : string) : JSValue :=
  JObj [("where", JObj [("node", JObj [("name", JStr n)])])].

(** The same entry with [createAsDuplicate: true]. *)
Definition connectByNameAsDuplicate (n : string) : JSValue :=
  JObj [("where", JObj [("node", JObj [("name", JStr n)])]);
        ("createAsDuplicate", JBool true)].

(** The arguments of a first-level connect on [Movie.actors]. *)
Definition actorsConnect (entries : list JSValue) (fromCreate : bool) : ConnectArgs :=
  mkConnectArgs ["this"] (JList entries) "this_connect_actors0" actorsField "this"
    [Actor] None Movie fromCreate false false true.

Definition noSubscriptions : Context := mkContext false.
Definition withSubscriptions : Context := mkContext true.

(** [{ where: { node: { active: true, _on: { Actor: { active: false } } } } }]. *)
Definition falsyOnOverride : JSValue :=
  JObj [("where", JObj [("node", JObj [("active", JBool true);
                                      ("_on", JObj [("Actor", JObj [("active", JBool false)])])])])].

(** [{ where: { node: { _on: { Series: {} } } } }]. *)
Definition onlySeriesFilter : JSValue :=
  JObj [("where", JObj [("node", JObj [("_on", JObj [("Series", JObj [])])])])].

Definition setRefNodes (args : ConnectArgs) (l : list Node) : ConnectArgs :=
  mkConnectArgs (withVars args) (value args) (varName args) (relationField args)
    (parentVar args) l (labelOverride args) (parentNode args) (fromCreate args)
    (insideDoWhen args) (includeRelationshipValidation args) (isFirstLevel args).

(** The selection and sorts of the [Cypher sort tests] on [Movie]. *)
Definition titleField : SelField := mkSelField "title" false.
Definition totalGenresField : SelField := mkSelField "totalGenres" true.
Definition totalActorsField : SelField := mkSelField "totalActors" true.

(** A field definition carrying [@computed(from: ...)]. *)
Definition computedField : FieldDefinition :=
  mkFieldDefinition "fullName"
    (Some [mkDirective "computed" [("from", AList ["firstName"; "lastName"])]]).

(** A field definition carrying [@customResolver(requires: ...)]. *)
Definition customResolverField : FieldDefinition :=
  mkFieldDefinition "fullName"
    (Some [mkDirective "customResolver" [("requires", AString "firstName lastName")]]).

(** The selection text itself stands for the resolve tree. *)
Definition selectionText (s : string) : result string := Ok s.

(** A to-one field [director] of [Movie]. *)
Definition directorField : RelationField :=
  mkRelationField "director" "DIRECTED" IN None false false false.

(** [{ where: {} }]: a connect filter without [node]. *)
Definition connectWithoutNode : JSValue := JObj [("where", JObj [])].

(** A connect of [Movie.director] with the entry [{ where: {} }]. *)
Definition directorConnectWithoutNode : ConnectArgs :=
  mkConnectArgs ["this"] connectWithoutNode "this_connect_director0" directorField "this"
    [Actor] None Movie false false false true.


(** [type Actor { name: String, age: Int }]. *)
Definition actorTypeDefinition : TypeDefinitionNode :=
  mkTypeDefinitionNode "Actor"
    (Some [mkFieldDefinitionNode "name" (NamedType "String");
           mkFieldDefinitionNode "age" (NamedType "Int")]).

(** The fields of [type Movie { title: String, actors: [Actor!]! }]. *)
Definition movieFieldDefinitions : list FieldDefinitionNode :=
  [mkFieldDefinitionNode "title" (NamedType "String");
   mkFieldDefinitionNode "actors" (NonNullType (ListType (NonNullType (NamedType "Actor"))))].

(** The carry-over lines that only thread subscription event metadata. *)
Definition isMetaLine (s : string) : bool :=
  String.prefix "WITH connect_meta + meta AS meta" s.

(** The translation with its event-metadata lines removed. *)
Definition stripMeta (r : Res) : Res :=
  (filter (fun s => negb (isMetaLine s)) (fst r), snd r).

(** The parts of [reducer]: lines 530-542, line 544-546, lines 548-572
    and lines 574-582. *)
Definition parentAuthLines (args : ConnectArgs) (p : JSObject) : list string * JSObject :=
  if hasAuth (parentNode args) && negb (fromCreate args) then
    let '(s, p0) := authWhereString (parentNode args) (parentVar args) in
    if String.eqb s "" then ([], p)
    else ([withLine (withVars args); String.append "WHERE " s], spread p p0)
  else ([], p).

Definition firstLevelLines (args : ConnectArgs) : list string :=
  if isFirstLevel args then [withLine (withVars args)] else [].

Definition innerPart (ctx : Context) (args : ConnectArgs) (connect : JSValue)
    (index : nat) (params1 : JSObject) : result (list string * JSObject) :=
  if rf_interface (relationField args) then
    sp <- interfaceSubqueries ctx args connect params1 ;;
    let '(subqueries, params2) := sp in
    match subqueries with
    | [] => Ok ([], params2)
    | _ => Ok ([join (interfaceSeparator ctx args) subqueries], params2)
    end
  else
    match refNodes args with
    | [] => Throw (TypeError "Cannot read properties of undefined (reading 'getLabelString')")
    | n :: _ =>
        sq <- createSubqueryContents ctx args n connect index ;;
        Ok ([fst sq], spread params1 (snd sq))
    end.

Definition callLines (ctx : Context) (args : ConnectArgs) (inner : list string) : list string :=
  match inner with
  | [] => []
  | _ => (["CALL {"] ++ inner ++ ["}"]
          ++ (if subscriptionsEnabled ctx then [metaLine args] else []))%list
  end.

(** [Actor] with [where], [allow] and [bind] rules for [CONNECT]. *)
Definition GuardedActor : Node := mkNode "Actor" ":Actor" (Some (mkAuthRules true true true)).

(** A connect on the interface field [productions] of [Movie], compiled for
    the implementation [Actor]. *)
Definition productionsConnect (entries : list JSValue) : ConnectArgs :=
  mkConnectArgs ["this"] (JList entries) "this_connect_productions0" productionsField "this"
    [Actor] None Movie false false false true.

(** * Properties *)

(** ** The subquery of one connect entry *)

Lemma connectWherePredicates_by_name : forall n1 n2 ref c,
  node_name n1 = node_name n2 ->
  connectWherePredicates n1 ref c = connectWherePredicates n2 ref c.
Proof. intros n1 n2 ref c H. unfold connectWherePredicates. rewrite H. reflexivity. Qed.

(** The observable behaviour of [createSubqueryContents]: a skipped entry
    gives the empty subquery, any other entry throws. *)
Lemma createSubqueryContents_spec : forall ctx args n c i,
  createSubqueryContents ctx args n c i =
  match connectWherePredicates n (varName args) c with
  | Throw e => Throw e
  | Ok None => Ok ("", [])
  | Ok (Some _) =>
      if includeRelationshipValidation args
      then Throw (ReferenceError "nodeName is not defined")
      else Throw (ReferenceError "subquery is not defined")
  end.
Proof.
  intros. unfold createSubqueryContents, buildConnectClauses.
  destruct (connectWherePredicates n (varName args) c) as [[w|]|e]; reflexivity.
Qed.

Lemma createSubqueryContents_ok : forall ctx args n c i r,
  createSubqueryContents ctx args n c i = Ok r -> r = ("", []).
Proof.
  intros ctx args n c i r H. rewrite createSubqueryContents_spec in H.
  destruct (connectWherePredicates n (varName args) c) as [[w|]|e];
    [destruct (includeRelationshipValidation args) | |]; congruence.
Qed.

Lemma createSubqueryContents_context : forall c1 c2 args n c i j,
  createSubqueryContents c1 args n c i = createSubqueryContents c2 args n c j.
Proof. intros. rewrite !createSubqueryContents_spec. reflexivity. Qed.

Lemma createSubqueryContents_by_name : forall ctx args n1 n2 c i,
  node_name n1 = node_name n2 ->
  createSubqueryContents ctx args n1 c i = createSubqueryContents ctx args n2 c i.
Proof.
  intros. rewrite !createSubqueryContents_spec.
  rewrite (connectWherePredicates_by_name n1 n2); auto.
Qed.

Lemma createSubqueryContents_refNodes : forall ctx args l n c i,
  createSubqueryContents ctx (setRefNodes args l) n c i = createSubqueryContents ctx args n c i.
Proof. intros. destruct args. reflexivity. Qed.

(** Every entry that is not skipped ends in an exception: no subquery
    text is ever returned for it. *)
Lemma createSubqueryContents_built_throws : forall ctx args n c i b,
  buildConnectClauses ctx args n c = Ok (Some b) ->
  exists msg, createSubqueryContents ctx args n c i = Throw (ReferenceError msg).
Proof.
  intros ctx args n c i b H. unfold createSubqueryContents. rewrite H. simpl.
  destruct (includeRelationshipValidation args); eexists; reflexivity.
Qed.

Lemma reduceM_skip : forall (A B : Type) (f : B -> A -> nat -> result B) (keep : A -> bool),
  (forall acc x i j, f acc x i = f acc x j) ->
  (forall acc x i, keep x = false -> f acc x i = Ok acc) ->
  forall l acc i j, reduceM f l acc i = reduceM f (filter keep l) acc j.
Proof.
  intros A B f keep Hidx Hskip l. induction l as [|x l IH]; intros acc i j; simpl.
  - reflexivity.
  - destruct (keep x) eqn:K; simpl.
    + rewrite (Hidx acc x i j). destruct (f acc x j); simpl; auto.
    + rewrite Hskip by assumption. simpl. apply IH.
Qed.

Lemma reduceM_ext : forall (A B : Type) (f g : B -> A -> nat -> result B),
  (forall acc x i, f acc x i = g acc x i) ->
  forall l acc i, reduceM f l acc i = reduceM g l acc i.
Proof.
  intros A B f g H l. induction l as [|x l IH]; intros acc i; simpl.
  - reflexivity.
  - rewrite H. destruct (g acc x i); simpl; auto.
Qed.

Lemma onOnly_skips : forall ctx args T connect on i,
  getp (getp (Some connect) "where") "node" = Some (JObj [("_on", on)]) ->
  truthy (Some on) = true ->
  hasOwnProperty on (node_name T) = false ->
  createSubqueryContents ctx args T connect i = Ok ("", []).
Proof.
  intros ctx args T connect on i Hn Ht Ho.
  rewrite createSubqueryContents_spec. unfold connectWherePredicates.
  destruct connect as [| | | | |cfs]; simpl in Hn; try discriminate.
  cbn [getp]. cbn [getp] in Hn.
  destruct (assoc "where" cfs) as [[| | | | |fs]|] eqn:Hw;
    simpl in Hn; try discriminate.
  cbn [truthy]. unfold whereNode. cbn [getp]. cbn [getp] in Hn. rewrite Hn.
  cbn [bind]. unfold onlyOnWithoutImplementation.
  replace (assoc "_on" [("_on", on)]) with (Some on) by reflexivity.
  rewrite Ht, Ho. reflexivity.
Qed.

(** C4: when the connect filter on the related node is only an [_on]
    clause with no entry for the implementation [T] being compiled, the
    subquery for [T] is the empty one (not an error), and on an
    interface field the translation of the entry is the same as if [T]
    were not among the implementations: nothing is emitted for it. *)
Theorem connect_on_filter_without_implementation_is_noop :
  forall ctx args T connect on,
  getp (getp (Some connect) "where") "node" = Some (JObj [("_on", on)]) ->
  truthy (Some on) = true ->
  hasOwnProperty on (node_name T) = false ->
  (forall i, createSubqueryContents ctx args T connect i = Ok ("", [])) /\
  (rf_interface (relationField args) = true ->
   forall res idx,
     reducer ctx args res connect idx =
     reducer ctx (setRefNodes args
                    (filter (fun n => negb (String.eqb (node_name n) (node_name T)))
                       (refNodes args))) res connect idx).
Proof.
  intros ctx args T connect on Hn Ht Ho. split.
  { intro i. eapply onOnly_skips; eauto. }
  intros Hi res idx.
  set (keep := fun n => negb (String.eqb (node_name n) (node_name T))).
  assert (E : forall p,
    interfaceSubqueries ctx (setRefNodes args (filter keep (refNodes args))) connect p =
    interfaceSubqueries ctx args connect p).
  { intro p. unfold interfaceSubqueries.
    rewrite (reduceM_ext _ _ _
      (fun acc refNode i =>
         let '(subqueries, ps) := acc in
         sq <- createSubqueryContents ctx args refNode connect i ;;
         let '(text, p0) := sq in
         if String.eqb text "" then Ok acc
         else Ok ((subqueries ++ [text])%list, spread ps p0))).
    2:{ intros [s ps] x i. rewrite createSubqueryContents_refNodes. reflexivity. }
    replace (refNodes (setRefNodes args (filter keep (refNodes args))))
      with (filter keep (refNodes args)) by (destruct args; reflexivity).
    symmetry. apply reduceM_skip.
    - intros [s ps] x i j. rewrite (createSubqueryContents_context ctx ctx args x connect i j).
      reflexivity.
    - intros [s ps] x i Hk. unfold keep in Hk.
      apply negb_false_iff, String.eqb_eq in Hk.
      rewrite (createSubqueryContents_by_name ctx args x T connect i Hk).
      rewrite (onOnly_skips ctx args T connect on i Hn Ht Ho). reflexivity. }
  destruct args as [wv v vn rf pv rns lo pn fc idw irv ifl]. simpl in Hi |- *.
  unfold reducer. simpl. rewrite Hi.
  destruct res as [c0 p0].
  destruct (hasAuth pn && negb fc); [destruct (authWhereString pn pv) as [s p]|];
    [destruct (String.eqb s "") |]; rewrite E; reflexivity.
Qed.

(** ** Subscriptions and the translation *)

Lemma interfaceSubqueries_context : forall c1 c2 args connect p,
  interfaceSubqueries c1 args connect p = interfaceSubqueries c2 args connect p.
Proof.
  intros. unfold interfaceSubqueries. apply reduceM_ext.
  intros [s ps] x i. rewrite (createSubqueryContents_context c1 c2 args x connect i i).
  reflexivity.
Qed.

(** No implementation contributes subquery text: each one is skipped or
    throws. *)
Lemma interfaceSubqueries_empty : forall ctx args connect p subs ps,
  interfaceSubqueries ctx args connect p = Ok (subs, ps) -> subs = [].
Proof.
  intros ctx args connect p. unfold interfaceSubqueries.
  assert (G : forall l acc i subs ps, fst acc = [] ->
    reduceM (fun acc refNode i =>
         let '(subqueries, ps) := acc in
         sq <- createSubqueryContents ctx args refNode connect i ;;
         let '(text, p0) := sq in
         if String.eqb text "" then Ok acc
         else Ok ((subqueries ++ [text])%list, spread ps p0)) l acc i = Ok (subs, ps) ->
    subs = []).
  { induction l as [|x l IH]; intros [s0 p0] i subs ps H0 H; simpl in *.
    - congruence.
    - destruct (createSubqueryContents ctx args x connect i) as [[t q]|e] eqn:Hc;
        simpl in H; [|discriminate].
      apply createSubqueryContents_ok in Hc. inversion Hc; subst.
      simpl in H. eapply IH; [|exact H]. reflexivity. }
  intros subs ps H. eapply G; [|exact H]. reflexivity.
Qed.

Lemma isMetaLine_metaLine : forall args, isMetaLine (metaLine args) = true.
Proof. intros. reflexivity. Qed.

Lemma stripMeta_app : forall l1 l2,
  filter (fun s => negb (isMetaLine s)) (l1 ++ l2)%list =
  (filter (fun s => negb (isMetaLine s)) l1 ++ filter (fun s => negb (isMetaLine s)) l2)%list.
Proof. intros. apply filter_app. Qed.

(** Two results agree up to event-metadata lines. *)
Definition sameUpToMeta (m1 m2 : result Res) : Prop :=
  fmap stripMeta m1 = fmap stripMeta m2.

Lemma reducer_decompose : forall ctx args l p connect idx,
  reducer ctx args (l, p) connect idx =
  (let '(a, p1) := parentAuthLines args p in
   inner <- innerPart ctx args connect idx p1 ;;
   Ok ((l ++ a ++ firstLevelLines args ++ callLines ctx args (fst inner))%list, snd inner)).
Proof.
  intros. unfold reducer, parentAuthLines, firstLevelLines, innerPart.
  destruct (hasAuth (parentNode args) && negb (fromCreate args));
    [destruct (authWhereString (parentNode args) (parentVar args)) as [s p0];
     destruct (String.eqb s "")|];
  (destruct (isFirstLevel args); simpl);
  (destruct (rf_interface (relationField args));
   [destruct (interfaceSubqueries _ _ _ _) as [[subs ps]|e]; simpl;
    [destruct subs|]
   | destruct (refNodes args); simpl;
     [|destruct (createSubqueryContents _ _ _ _ _) as [[t q]|e]; simpl]]);
  try reflexivity;
  unfold callLines; simpl; rewrite ?app_nil_r, <- ?app_assoc; reflexivity.
Qed.

Lemma innerPart_context : forall c1 c2 args connect idx p,
  innerPart c1 args connect idx p = innerPart c2 args connect idx p.
Proof.
  intros. unfold innerPart. destruct (rf_interface (relationField args)).
  - rewrite (interfaceSubqueries_context c1 c2).
    destruct (interfaceSubqueries c2 args connect p) as [[subs ps]|e] eqn:E; simpl; auto.
    apply interfaceSubqueries_empty in E. subst. reflexivity.
  - destruct (refNodes args) as [|n ns]; auto.
    rewrite (createSubqueryContents_context c1 c2 args n connect idx idx). reflexivity.
Qed.

Lemma callLines_up_to_meta : forall c1 c2 args inner,
  filter (fun s => negb (isMetaLine s)) (callLines c1 args inner) =
  filter (fun s => negb (isMetaLine s)) (callLines c2 args inner).
Proof.
  intros. unfold callLines. destruct inner as [|x xs]; [reflexivity|].
  rewrite !filter_app.
  destruct (subscriptionsEnabled c1), (subscriptionsEnabled c2); simpl filter at 4 5;
    rewrite ?isMetaLine_metaLine; simpl; reflexivity.
Qed.

Lemma reducer_up_to_meta : forall c1 c2 args l1 l2 p connect idx,
  filter (fun s => negb (isMetaLine s)) l1 = filter (fun s => negb (isMetaLine s)) l2 ->
  sameUpToMeta (reducer c1 args (l1, p) connect idx) (reducer c2 args (l2, p) connect idx).
Proof.
  intros c1 c2 args l1 l2 p connect idx Hl. unfold sameUpToMeta.
  rewrite !reducer_decompose. destruct (parentAuthLines args p) as [a p1].
  rewrite (innerPart_context c1 c2).
  destruct (innerPart c2 args connect idx p1) as [[inn ps]|e]; simpl; auto.
  unfold stripMeta; simpl. rewrite !filter_app, Hl, (callLines_up_to_meta c1 c2). reflexivity.
Qed.

Lemma reduceM_up_to_meta : forall c1 c2 args es l1 l2 p i,
  filter (fun s => negb (isMetaLine s)) l1 = filter (fun s => negb (isMetaLine s)) l2 ->
  sameUpToMeta (reduceM (reducer c1 args) es (l1, p) i) (reduceM (reducer c2 args) es (l2, p) i).
Proof.
  intros c1 c2 args es. induction es as [|x es IH]; intros l1 l2 p i Hl; cbn [reduceM].
  - unfold sameUpToMeta, stripMeta. simpl. rewrite Hl. reflexivity.
  - pose proof (reducer_up_to_meta c1 c2 args l1 l2 p x i Hl) as R. unfold sameUpToMeta in R.
    destruct (reducer c1 args (l1, p) x i) as [[a1 q1]|e1];
      destruct (reducer c2 args (l2, p) x i) as [[a2 q2]|e2]; cbn [bind fmap] in R |- *;
      try discriminate.
    + unfold stripMeta in R. simpl in R. inversion R; subst. exact (IH a1 a2 q2 (S i) H0).
    + inversion R; subst. reflexivity.
Qed.

(** C8: switching the subscription side-channel on or off changes the
    translation of a connect input only by the carry-over lines that
    thread event metadata ([WITH connect_meta + meta AS meta, ...]): with
    those lines removed, the two translations (lines and parameters, or
    the exception raised) are the same. *)
Theorem subscriptions_change_only_meta_lines : forall c1 c2 args,
  fmap stripMeta (createConnectLines c1 args) = fmap stripMeta (createConnectLines c2 args).
Proof.
  intros c1 c2 args. unfold createConnectLines.
  destruct (connectEntries args) as [es|e]; simpl; [|reflexivity].
  apply reduceM_up_to_meta. reflexivity.
Qed.

(** ** Order of the translation *)

Lemma reduceM_app : forall (A B : Type) (f : B -> A -> nat -> result B) l1 l2 acc i,
  reduceM f (l1 ++ l2) acc i = (r <- reduceM f l1 acc i ;; reduceM f l2 r (i + length l1)).
Proof.
  intros A B f l1. induction l1 as [|x l1 IH]; intros l2 acc i; simpl.
  - rewrite Nat.add_0_r. reflexivity.
  - destruct (f acc x i) as [a|e]; simpl; [|reflexivity].
    rewrite IH. replace (S i + length l1) with (i + S (length l1)) by lia. reflexivity.
Qed.

(** C6: the translation of a connect input is a function of the schema
    model and the input alone, and it follows the input order: the
    entries of a connect list are translated one after the other (the
    translation of [es1 ++ es2] continues the one of [es1] with [es2]),
    and each entry only appends its lines after those of the entries
    before it. *)
Theorem connect_entries_translated_in_input_order : forall ctx args,
  (forall es1 es2 acc i,
     reduceM (reducer ctx args) (es1 ++ es2) acc i =
     (r1 <- reduceM (reducer ctx args) es1 acc i ;;
      reduceM (reducer ctx args) es2 r1 (i + length es1))) /\
  (forall l p connect idx,
     reducer ctx args (l, p) connect idx =
     fmap (fun r => ((l ++ fst r)%list, snd r)) (reducer ctx args ([], p) connect idx)).
Proof.
  intros ctx args. split.
  - intros. apply reduceM_app.
  - intros l p connect idx. rewrite !reducer_decompose.
    destruct (parentAuthLines args p) as [a p1].
    destruct (innerPart ctx args connect idx p1) as [[inn ps]|e]; reflexivity.
Qed.

(** ** Connect entries that are not skipped *)

(** C1 (code defect): connecting the same [Actor] twice to a [Movie]
    raises a [ReferenceError] at translation time, with the default
    (merge) policy and with [createAsDuplicate] set alike; and the
    [createAsDuplicate] branch builds [CREATE] over the fresh variable of
    line 75, not over the relationship pattern that the [MERGE] branch
    uses. *)
Theorem connect_twice_raises_reference_error :
  createConnectAndParams noSubscriptions
    (actorsConnect [connectByName "a"; connectByName "a"] false)
  = Throw (ReferenceError "subquery is not defined") /\
  createConnectAndParams noSubscriptions
    (actorsConnect [connectByNameAsDuplicate "a"; connectByNameAsDuplicate "a"] false)
  = Throw (ReferenceError "subquery is not defined") /\
  fmap (option_map b_write)
    (buildConnectClauses noSubscriptions (actorsConnect [] false) Actor (connectByName "a"))
  = Ok (Some (WMerge "this_connect_actors0" "this" "ACTED_IN")) /\
  fmap (option_map b_write)
    (buildConnectClauses noSubscriptions (actorsConnect [] false) Actor
       (connectByNameAsDuplicate "a"))
  = Ok (Some (WCreateVariable freshRelationshipVariable)).
Proof. repeat split; vm_compute; reflexivity. Qed.

(** C2 (code defect): a create input whose [actors] field connects two
    distinct existing actors with two literal entries yields no program:
    the translation raises a [ReferenceError]. *)
Theorem create_with_two_connect_entries_raises :
  createConnectAndParams noSubscriptions
    (actorsConnect [connectByName "An Actor"; connectByName "Name"] true)
  = Throw (ReferenceError "subquery is not defined").
Proof. vm_compute. reflexivity. Qed.

(** C3 (code defect): connecting an existing [Actor] to an existing
    [Movie], both with [CONNECT] rules, builds a match clause that does
    carry both [allow] predicates in one conjunction, but that clause is
    never part of a result: the translation raises a [ReferenceError]. *)
Theorem connect_existing_nodes_with_auth_raises :
  fmap (option_map (fun b => mc_wheres (b_match b)))
    (buildConnectClauses noSubscriptions (actorsConnect [] false) GuardedActor
       (connectByName "a"))
  = Ok (Some [PWhere "this_connect_actors0" [("name", JStr "a")];
              PAuth "where" "Actor" "this_connect_actors0";
              PAnd [PValidate (PAuth "allow" "Actor" "this_connect_actors0")
                      (dq ++ AUTH_FORBIDDEN_ERROR ++ dq);
                    PValidate (PAuth "allow" "Movie" "this")
                      (dq ++ AUTH_FORBIDDEN_ERROR ++ dq)]]) /\
  createConnectAndParams noSubscriptions
    (setRefNodes (actorsConnect [connectByName "a"] false) [GuardedActor])
  = Throw (ReferenceError "subquery is not defined").
Proof. split; vm_compute; reflexivity. Qed.

(** C7 (code defect): a connect entry that is not skipped never compiles
    to a program holding the [apoc.util.validate] post-condition: on a
    non-interface field, once the clauses of its first entry are built,
    the translation itself fails with a [ReferenceError] (line 341 or
    361), before the [bind] checks of lines 480-517 are reached, whatever
    the authorization rules of the two entities. In particular a connect
    between an [Actor] and a [Movie] that both carry [bind] rules fails
    at translation, with and without subscriptions. *)
Theorem connect_with_bind_rules_fails_at_translation :
  (forall ctx args e rest n ns b,
     rf_interface (relationField args) = false ->
     refNodes args = n :: ns ->
     connectEntries args = Ok (e :: rest) ->
     buildConnectClauses ctx args n e = Ok (Some b) ->
     exists msg, createConnectAndParams ctx args = Throw (ReferenceError msg)) /\
  createConnectAndParams noSubscriptions
    (setRefNodes (actorsConnect [connectByName "a"] false) [GuardedActor])
  = Throw (ReferenceError "subquery is not defined") /\
  createConnectAndParams withSubscriptions
    (setRefNodes (actorsConnect [connectByName "a"] true) [GuardedActor])
  = Throw (ReferenceError "subquery is not defined").
Proof.
  split; [|split; vm_compute; reflexivity].
  intros ctx args e rest n ns b Hi Hr He Hb.
  destruct (createSubqueryContents_built_throws ctx args n e 0 b Hb) as [msg Hmsg].
  exists msg. unfold createConnectAndParams, createConnectLines. rewrite He.
  cbn [bind reduceM]. rewrite reducer_decompose.
  destruct (parentAuthLines args []) as [a p1].
  unfold innerPart. rewrite Hi, Hr, Hmsg. reflexivity.
Qed.

(** C9 (code defect): for [{ active: true, _on: { Actor: { active: false } } }]
    the root filter keeps [active: true], because line 105 tests the
    [_on] value for truthiness, so the match clause built for [Actor]
    requires both [active = true] and [active = false]; and the
    translation raises a [ReferenceError] rather than emitting it. *)
Theorem falsy_on_override_keeps_root_value :
  rootWhereInput "Actor" [("active", JBool true);
                          ("_on", JObj [("Actor", JObj [("active", JBool false)])])]
  = [("active", JBool true)] /\
  onWhereInput "Actor" [("active", JBool true);
                        ("_on", JObj [("Actor", JObj [("active", JBool false)])])]
  = [("active", JBool false)] /\
  fmap (option_map (fun b => firstn 2 (mc_wheres (b_match b))))
    (buildConnectClauses noSubscriptions (productionsConnect []) Actor falsyOnOverride)
  = Ok (Some [PWhere "this_connect_productions0" [("active", JBool true)];
              PWhere "this_connect_productions0" [("active", JBool false)]]) /\
  createConnectAndParams noSubscriptions (productionsConnect [falsyOnOverride])
  = Throw (ReferenceError "subquery is not defined").
Proof. repeat split; vm_compute; reflexivity. Qed.

(** ** The deprecation warning of [@computed] *)

Lemma runCall_spec : forall RT (sel : string -> result RT) st c,
  runCall RT sel st c =
  if callHasDeprecatedDirective c then
    (if deprecationWarningShown st then st
     else mkModuleState true (consoleWarnings st ++ [DEPRECATION_WARNING])%list)
  else st.
Proof.
  intros. unfold runCall, getCustomResolverMeta, callHasDeprecatedDirective. simpl.
  destruct (fieldDirective (call_field c) (call_interfaceField c) "computed"); reflexivity.
Qed.

Lemma runCalls_shown : forall RT (sel : string -> result RT) calls st,
  deprecationWarningShown st = true -> runCalls RT sel st calls = st.
Proof.
  intros RT sel calls. induction calls as [|c calls IH]; intros st H; simpl; auto.
  unfold runCalls in IH. rewrite runCall_spec, H.
  destruct (callHasDeprecatedDirective c); apply IH; assumption.
Qed.

Lemma runCalls_not_shown : forall RT (sel : string -> result RT) calls st,
  deprecationWarningShown st = false ->
  runCalls RT sel st calls =
  if existsb callHasDeprecatedDirective calls
  then mkModuleState true (consoleWarnings st ++ [DEPRECATION_WARNING])%list
  else st.
Proof.
  intros RT sel calls. induction calls as [|c calls IH]; intros st H; simpl; auto.
  unfold runCalls in IH |- *. simpl. rewrite runCall_spec, H.
  destruct (callHasDeprecatedDirective c); simpl.
  - apply runCalls_shown. reflexivity.
  - apply IH. assumption.
Qed.

(** C10: over any sequence of calls of [getCustomResolverMeta] in one
    process, the deprecation warning is written exactly once if some call
    meets [@computed] (on the field or on the interface field), and never
    otherwise; once written, the module flag is set; and a call that
    meets no [@computed] changes neither the flag nor the console. *)
Theorem deprecation_warning_at_most_once : forall RT (sel : string -> result RT),
  (forall calls,
     consoleWarnings (runCalls RT sel initialModuleState calls)
     = (if existsb callHasDeprecatedDirective calls then [DEPRECATION_WARNING] else []) /\
     deprecationWarningShown (runCalls RT sel initialModuleState calls)
     = existsb callHasDeprecatedDirective calls) /\
  (forall st c, callHasDeprecatedDirective c = false -> runCall RT sel st c = st).
Proof.
  intros RT sel. split.
  - intros calls. rewrite runCalls_not_shown by reflexivity.
    destruct (existsb callHasDeprecatedDirective calls); auto.
  - intros st c H. rewrite runCall_spec, H. reflexivity.
Qed.

(** ** Computed fields and the sort *)

Lemma filter_all_false : forall (A : Type) (p : A -> bool) l,
  (forall x, In x l -> p x = false) -> filter p l = [].
Proof.
  intros A p l H. induction l as [|x l IH]; simpl; auto.
  rewrite H by (left; reflexivity). apply IH. intros y Hy. apply H. right. assumption.
Qed.

(** The sort tests: sorting on the stored [title] projects [totalGenres]
    after the sort; sorting on [totalGenres] projects it before, and
    [totalActors] after. *)
Example sort_on_stored_field_projects_after :
  translateReadConnection "Movie" [titleField; totalGenresField] [titleField] false false
  = [RMatch "Movie"; RProject []; ROrderBy ["title"]; RProjectRest ["totalGenres"]].
Proof. reflexivity. Qed.

Example sort_on_computed_field_projects_before :
  translateReadConnection "Movie" [titleField; totalGenresField; totalActorsField]
    [totalGenresField] false false
  = [RMatch "Movie"; RProject ["totalGenres"]; ROrderBy ["totalGenres"];
     RProjectRest ["totalActors"]].
Proof. reflexivity. Qed.

Ltac read_positions :=
  repeat match goal with
  | [ k : nat |- _ ] => destruct k; simpl in *; try discriminate; try lia
  end.

(** C5: in the read translation, every computed field the sort uses is
    projected at a position before the [ORDER BY] and before every
    [SKIP] and [LIMIT]; when the sort uses only stored fields, nothing
    computed is projected before them, and every selected computed field
    is projected after the sort and the pagination. *)
Theorem computed_sort_fields_projected_before_pagination :
  forall label selection sort offset limit,
  let prog := translateReadConnection label selection sort offset limit in
  (forall f, In f sort -> sf_computed f = true ->
     exists fs ks, nth_error prog 1 = Some (RProject fs) /\ In (sf_name f) fs /\
       nth_error prog 2 = Some (ROrderBy ks) /\
       (forall k c, nth_error prog k = Some c -> c = RSkip \/ c = RLimit -> 1 < k)) /\
  ((forall g, In g sort -> sf_computed g = false) ->
     (forall k fs, nth_error prog k = Some (RProject fs) -> fs = []) /\
     (forall f, In f selection -> sf_computed f = true ->
        exists k fs, nth_error prog k = Some (RProjectRest fs) /\ In (sf_name f) fs /\
          (forall k' c, nth_error prog k' = Some c ->
             c = RSkip \/ c = RLimit \/ (exists ks, c = ROrderBy ks) -> k' < k))).
Proof.
  intros label selection sort offset limit prog. split.
  - intros f Hin Hc. eexists; eexists. split; [reflexivity|]. split.
    { apply in_map. apply filter_In. auto. }
    split; [reflexivity|].
    intros k c Hk Hkind. subst prog. unfold translateReadConnection in Hk.
    destruct k as [|[|k]]; simpl in Hk; [inversion Hk; subst; destruct Hkind; discriminate
                                        | inversion Hk; subst; destruct Hkind; discriminate
                                        | lia].
  - intros Hst. assert (E : filter sf_computed sort = []) by (apply filter_all_false; auto).
    split.
    + intros k fs Hk. subst prog. unfold translateReadConnection in Hk. rewrite E in Hk.
      destruct offset, limit; read_positions; inversion Hk; reflexivity.
    + intros f Hf Hc. subst prog. unfold translateReadConnection. rewrite E.
      exists (3 + (if offset then 1 else 0) + (if limit then 1 else 0)).
      eexists. split.
      { destruct offset, limit; reflexivity. }
      split.
      { apply in_map. apply filter_In. split; auto. rewrite Hc. reflexivity. }
      intros k' c Hk' Hkind.
      destruct offset, limit; read_positions;
        inversion Hk'; subst; destruct Hkind as [H|[H|[ks H]]]; discriminate.
Qed.

(** ** Witnesses *)

Lemma connect_on_filter_without_implementation_is_noop_witness :
  getp (getp (Some onlySeriesFilter) "where") "node"
    = Some (JObj [("_on", JObj [("Series", JObj [])])]) /\
  truthy (Some (JObj [("Series", JObj [])])) = true /\
  hasOwnProperty (JObj [("Series", JObj [])]) (node_name Actor) = false /\
  createSubqueryContents noSubscriptions (productionsConnect [onlySeriesFilter]) Actor
    onlySeriesFilter 0 = Ok ("", []) /\
  reducer withSubscriptions (productionsConnect [onlySeriesFilter]) ([], []) onlySeriesFilter 0
  = reducer withSubscriptions
      (setRefNodes (productionsConnect [onlySeriesFilter])
         (filter (fun n => negb (String.eqb (node_name n) (node_name Actor)))
            (refNodes (productionsConnect [onlySeriesFilter]))))
      ([], []) onlySeriesFilter 0.
Proof.
  split; [reflexivity|]. split; [reflexivity|]. split; [reflexivity|].
  pose proof (connect_on_filter_without_implementation_is_noop withSubscriptions
                (productionsConnect [onlySeriesFilter]) Actor onlySeriesFilter
                (JObj [("Series", JObj [])]) eq_refl eq_refl eq_refl) as W.
  split.
  - apply (proj1 (connect_on_filter_without_implementation_is_noop noSubscriptions
                    (productionsConnect [onlySeriesFilter]) Actor onlySeriesFilter
                    (JObj [("Series", JObj [])]) eq_refl eq_refl eq_refl) 0).
  - apply (proj2 W eq_refl).
Defined.

Lemma deprecation_warning_at_most_once_witness :
  callHasDeprecatedDirective (mkResolverCall customResolverField ObjectTypeDefinition
                                ["fullName"] None) = false /\
  runCall string selectionText initialModuleState
    (mkResolverCall customResolverField ObjectTypeDefinition ["fullName"] None)
  = initialModuleState /\
  consoleWarnings (runCalls string selectionText initialModuleState
    [mkResolverCall computedField ObjectTypeDefinition [] None;
     mkResolverCall computedField ObjectTypeDefinition [] None])
  = [DEPRECATION_WARNING].
Proof.
  split; [reflexivity|].
  pose proof (deprecation_warning_at_most_once string selectionText) as [A B].
  split.
  - apply B. reflexivity.
  - apply (proj1 (A [mkResolverCall computedField ObjectTypeDefinition [] None;
                     mkResolverCall computedField ObjectTypeDefinition [] None])).
Defined.

Lemma computed_sort_fields_projected_before_pagination_witness :
  In totalGenresField [totalGenresField] /\ sf_computed totalGenresField = true /\
  exists fs ks,
    nth_error (translateReadConnection "Movie" [titleField; totalGenresField]
                 [totalGenresField] true true) 1 = Some (RProject fs) /\
    In (sf_name totalGenresField) fs /\
    nth_error (translateReadConnection "Movie" [titleField; totalGenresField]
                 [totalGenresField] true true) 2 = Some (ROrderBy ks) /\
    (forall k c, nth_error (translateReadConnection "Movie" [titleField; totalGenresField]
                              [totalGenresField] true true) k = Some c ->
                 c = RSkip \/ c = RLimit -> 1 < k).
Proof.
  split; [left; reflexivity|]. split; [reflexivity|].
  apply (proj1 (computed_sort_fields_projected_before_pagination "Movie"
                  [titleField; totalGenresField] [totalGenresField] true true)
           totalGenresField).
  - left. reflexivity.
  - reflexivity.
Defined.

(** ** Further properties of the connect translation *)

Lemma assoc_setKey : forall k k' v o,
  assoc k (setKey k' v o) = if String.eqb k k' then Some v else assoc k o.
Proof.
  intros k k' v o. induction o as [|[k0 v0] o IH]; simpl.
  - reflexivity.
  - destruct (String.eqb k' k0) eqn:E1.
    + apply String.eqb_eq in E1. subst k0. simpl.
      destruct (String.eqb k k'); reflexivity.
    + simpl. destruct (String.eqb k k0) eqn:E2.
      * apply String.eqb_eq in E2. subst k0.
        destruct (String.eqb k k') eqn:E3; [|reflexivity].
        apply String.eqb_eq in E3. subst k'. rewrite String.eqb_refl in E1. discriminate.
      * exact IH.
Qed.

Lemma assoc_notin : forall k (o : JSObject), ~ In k (map fst o) -> assoc k o = None.
Proof.
  intros k o. induction o as [|[k0 v0] o IH]; simpl; intro H; [reflexivity|].
  destruct (String.eqb k k0) eqn:E.
  - apply String.eqb_eq in E. subst. exfalso. apply H. left. reflexivity.
  - apply IH. intro Hin. apply H. right. exact Hin.
Qed.

Lemma assoc_spread : forall k o p, NoDup (map fst p) ->
  assoc k (spread o p) = match assoc k p with Some v => Some v | None => assoc k o end.
Proof.
  intros k o p. revert o. induction p as [|[k0 v0] p IH]; intros o Hnd; simpl.
  - reflexivity.
  - inversion Hnd as [|? ? Hnin Hnd']; subst.
    unfold spread in IH |- *. simpl. rewrite IH by exact Hnd'.
    destruct (String.eqb k k0) eqn:E.
    + apply String.eqb_eq in E. subst k0. rewrite assoc_notin by exact Hnin.
      rewrite assoc_setKey, String.eqb_refl. reflexivity.
    + rewrite assoc_setKey, E. reflexivity.
Qed.

Lemma assoc_hasOwnProperty : forall fs k v,
  assoc k fs = Some v -> hasOwnProperty (JObj fs) k = true.
Proof.
  intros fs k v. induction fs as [|[k0 v0] fs IH]; simpl; [discriminate|].
  destruct (String.eqb k k0) eqn:E; intro H.
  - apply String.eqb_eq in E. subst. rewrite String.eqb_refl. reflexivity.
  - apply orb_true_iff. right. exact (IH H).
Qed.

(** The [reduce] of [rootWhereInput] over any part [l] of the filter. *)
Lemma rootWhereInput_fold : forall whole T l acc k, NoDup (map fst l) ->
  assoc k (fold_left
    (fun args kv =>
       let '(k0, v) := kv in
       if negb (String.eqb k0 "_on") then
         if truthy (getp (getp (assoc "_on" whole) T) k0) then args
         else setKey k0 v args
       else args) l acc) =
  match assoc k l with
  | Some v =>
      if String.eqb k "_on" || truthy (getp (getp (assoc "_on" whole) T) k)
      then assoc k acc else Some v
  | None => assoc k acc
  end.
Proof.
  intros whole T l. induction l as [|[k0 v0] l IH]; intros acc k Hnd; simpl.
  - reflexivity.
  - inversion Hnd as [|? ? Hnin Hnd']; subst.
    rewrite IH by exact Hnd'.
    destruct (String.eqb k k0) eqn:E.
    + apply String.eqb_eq in E. subst k0. rewrite (assoc_notin k l Hnin).
      destruct (String.eqb k "_on"); simpl; [reflexivity|].
      destruct (truthy (getp (getp (assoc "_on" whole) T) k)); [reflexivity|].
      rewrite assoc_setKey, String.eqb_refl. reflexivity.
    + assert (Hacc : assoc k
        (if negb (String.eqb k0 "_on") then
           if truthy (getp (getp (assoc "_on" whole) T) k0) then acc else setKey k0 v0 acc
         else acc) = assoc k acc).
      { destruct (negb (String.eqb k0 "_on")); [|reflexivity].
        destruct (truthy (getp (getp (assoc "_on" whole) T) k0)); [reflexivity|].
        rewrite assoc_setKey, E. reflexivity. }
      rewrite Hacc. reflexivity.
Qed.

(** The [reduce] of [onWhereInput] over a part of the filter without [_on]. *)
Lemma onWhereInput_fold_root : forall T l acc, ~ In "_on" (map fst l) ->
  fold_left
    (fun args kv =>
       let '(k, v) := kv in
       if negb (String.eqb k "_on") then setKey k v args
       else if hasOwnProperty v T then spreadValue args (getp (Some v) T)
       else args) l acc = spread acc l.
Proof.
  intros T l. induction l as [|[k0 v0] l IH]; intros acc Hn; simpl.
  - reflexivity.
  - destruct (String.eqb k0 "_on") eqn:E.
    + apply String.eqb_eq in E. subst. exfalso. apply Hn. left. reflexivity.
    + simpl. rewrite IH. reflexivity. intro H. apply Hn. right. exact H.
Qed.

Lemma fst_parentAuthLines : forall args p q,
  fst (parentAuthLines args p) = fst (parentAuthLines args q).
Proof.
  intros. unfold parentAuthLines.
  destruct (hasAuth (parentNode args) && negb (fromCreate args)); [|reflexivity].
  destruct (authWhereString (parentNode args) (parentVar args)) as [s p0].
  destruct (String.eqb s ""); reflexivity.
Qed.

(** A callback of [reduceM] that succeeded on the whole list succeeded on
    every element. *)
Lemma reduceM_ok_each : forall (A B : Type) (f : B -> A -> nat -> result B) l acc i r,
  reduceM f l acc i = Ok r ->
  forall x, In x l -> exists acc' j r', f acc' x j = Ok r'.
Proof.
  intros A B f l. induction l as [|y l IH]; intros acc i r H x Hin; [destruct Hin|].
  simpl in H. destruct (f acc y i) as [acc1|e] eqn:Hf; simpl in H; [|discriminate].
  destruct Hin as [<-|Hin].
  - exists acc, i, acc1. exact Hf.
  - exact (IH acc1 (S i) r H x Hin).
Qed.

Lemma connectWherePredicates_skipped : forall n ref c,
  connectWherePredicates n ref c = Ok None ->
  exists node, getp (getp (Some c) "where") "node" = Some (JObj node) /\
               onlyOnWithoutImplementation (node_name n) node = true.
Proof.
  intros n ref c. unfold connectWherePredicates.
  destruct (truthy (getp (Some c) "where")); [|discriminate].
  unfold whereNode. destruct (getp (getp (Some c) "where") "node") as [[| | | | |fs]|];
    cbn [bind]; try discriminate.
  destruct (onlyOnWithoutImplementation (node_name n) fs) eqn:E; [|discriminate].
  intros _. exists fs. split; [reflexivity | exact E].
Qed.

Lemma createSubqueryContents_ok_skipped : forall ctx args n c i r,
  createSubqueryContents ctx args n c i = Ok r ->
  connectWherePredicates n (varName args) c = Ok None.
Proof.
  intros ctx args n c i r H. rewrite createSubqueryContents_spec in H.
  destruct (connectWherePredicates n (varName args) c) as [[w|]|e];
    [destruct (includeRelationshipValidation args) | |]; congruence.
Qed.

Lemma innerPart_ok : forall ctx args e idx p inner,
  innerPart ctx args e idx p = Ok inner ->
  inner = (if rf_interface (relationField args) then [] else [""], snd inner) /\
  forall n, (if rf_interface (relationField args) then In n (refNodes args)
             else hd_error (refNodes args) = Some n) ->
  connectWherePredicates n (varName args) e = Ok None.
Proof.
  intros ctx args e idx p inner. unfold innerPart.
  destruct (rf_interface (relationField args)).
  - destruct (interfaceSubqueries ctx args e p) as [[subs ps]|err] eqn:Hi; cbn [bind];
      [|discriminate].
    pose proof (interfaceSubqueries_empty _ _ _ _ _ _ Hi) as ->. intro H.
    inversion H; subst. split; [reflexivity|].
    intros n Hn. unfold interfaceSubqueries in Hi.
    destruct (reduceM_ok_each _ _ _ _ _ _ _ Hi n Hn) as [[s0 p0] [j [r' Hr]]].
    destruct (createSubqueryContents ctx args n e j) as [r0|err] eqn:Hc;
      cbn [bind] in Hr; [|discriminate].
    exact (createSubqueryContents_ok_skipped _ _ _ _ _ _ Hc).
  - destruct (refNodes args) as [|n0 rest]; [discriminate|].
    destruct (createSubqueryContents ctx args n0 e idx) as [r0|err] eqn:Hc; cbn [bind];
      [|discriminate].
    intro H. inversion H; subst.
    pose proof (createSubqueryContents_ok _ _ _ _ _ _ Hc) as ->. split; [reflexivity|].
    intros n Hn. simpl in Hn. inversion Hn; subst.
    exact (createSubqueryContents_ok_skipped _ _ _ _ _ _ Hc).
Qed.

Lemma reduceM_reducer_lines : forall ctx args es l0 p0 i lines ps,
  reduceM (reducer ctx args) es (l0, p0) i = Ok (lines, ps) ->
  lines = (l0 ++ concat (map (fun _ : JSValue =>
             fst (parentAuthLines args []) ++ firstLevelLines args ++
             (if rf_interface (relationField args) then [] else callLines ctx args [""])) es))%list.
Proof.
  intros ctx args es. induction es as [|e es IH]; intros l0 p0 i lines ps H;
    cbn [reduceM map concat] in H |- *.
  - inversion H. rewrite app_nil_r. reflexivity.
  - rewrite reducer_decompose in H.
    destruct (parentAuthLines args p0) as [a p1] eqn:Hp.
    destruct (innerPart ctx args e i p1) as [inner|err] eqn:Hin; cbn [bind] in H;
      [|discriminate].
    destruct (innerPart_ok _ _ _ _ _ _ Hin) as [Hshape _].
    rewrite (IH _ _ _ _ _ H).
    replace (fst (parentAuthLines args [])) with a
      by (rewrite (fst_parentAuthLines args [] p0), Hp; reflexivity).
    rewrite Hshape. simpl.
    destruct (rf_interface (relationField args)); simpl; rewrite <- !app_assoc; reflexivity.
Qed.

Lemma reduceM_reducer_skipped : forall ctx args es acc i r,
  reduceM (reducer ctx args) es acc i = Ok r ->
  forall e n, In e es ->
  (if rf_interface (relationField args) then In n (refNodes args)
   else hd_error (refNodes args) = Some n) ->
  connectWherePredicates n (varName args) e = Ok None.
Proof.
  intros ctx args es acc i r H e n He Hn.
  destruct (reduceM_ok_each _ _ _ _ _ _ _ H e He) as [[l p] [j [r' Hr]]].
  rewrite reducer_decompose in Hr.
  destruct (parentAuthLines args p) as [a p1].
  destruct (innerPart ctx args e j p1) as [inner|err] eqn:Hin; cbn [bind] in Hr;
    [|discriminate].
  exact (proj2 (innerPart_ok _ _ _ _ _ _ Hin) n Hn).
Qed.

(** The root-level filter of a connect entry (lines 99-116) keeps every
    key of the node filter except [_on] and the keys whose value under
    [_on[T]] is truthy; a kept key keeps its value. *)
Theorem rootWhereInput_keys : forall T node k,
  NoDup (map fst node) ->
  assoc k (rootWhereInput T node) =
  if String.eqb k "_on" || truthy (getp (getp (assoc "_on" node) T) k)
  then None else assoc k node.
Proof.
  intros T node k Hnd. unfold rootWhereInput.
  rewrite (rootWhereInput_fold node T node [] k Hnd).
  destruct (assoc k node); destruct (String.eqb k "_on" || _); reflexivity.
Qed.

(** In the [_on] filter of a connect entry (lines 121-140), a key set both
    at the root and in [_on[T]] takes the value written later in the
    filter: the [_on[T]] value when [_on] is the last key, the root value
    when [_on] is the first key. *)
Theorem onWhereInput_follows_key_order : forall T root onv p,
  NoDup (map fst root) -> ~ In "_on" (map fst root) -> NoDup (map fst p) ->
  getp (Some onv) T = Some (JObj p) ->
  (forall k, assoc k (onWhereInput T (root ++ [("_on", onv)])%list) =
             match assoc k p with Some v => Some v | None => assoc k root end) /\
  (forall k, assoc k (onWhereInput T (("_on", onv) :: root)) =
             match assoc k root with Some v => Some v | None => assoc k p end).
Proof.
  intros T root onv p Hnd Hn Hp Hget.
  destruct onv as [| | | | |fs]; try discriminate. simpl in Hget.
  pose proof (assoc_hasOwnProperty fs T _ Hget) as Hown.
  split; intro k; unfold onWhereInput.
  - rewrite fold_left_app, (onWhereInput_fold_root T root [] Hn). cbn [fold_left].
    rewrite String.eqb_refl. cbn [negb]. rewrite Hown. cbn [getp]. rewrite Hget.
    cbn [spreadValue].
    rewrite assoc_spread by exact Hp. rewrite assoc_spread by exact Hnd.
    destruct (assoc k p), (assoc k root); reflexivity.
  - cbn [fold_left]. rewrite String.eqb_refl. cbn [negb]. rewrite Hown. cbn [getp].
    rewrite Hget. cbn [spreadValue].
    rewrite onWhereInput_fold_root by exact Hn.
    rewrite assoc_spread by exact Hnd. rewrite assoc_spread by exact Hp.
    destruct (assoc k p), (assoc k root); reflexivity.
Qed.

(** A single connect entry whose [where] is set but has no [node] makes
    the whole translation throw a [TypeError], on interface and
    non-interface fields alike. *)
Theorem connect_where_without_node_throws : forall ctx args,
  rf_array (relationField args) = false ->
  refNodes args <> [] ->
  truthy (getp (Some (value args)) "where") = true ->
  getp (getp (Some (value args)) "where") "node" = None ->
  createConnectAndParams ctx args =
  Throw (TypeError "Cannot read properties of undefined (reading '_on')").
Proof.
  intros ctx args Ha Hr Hw Hn.
  assert (Hc : forall n i, createSubqueryContents ctx args n (value args) i =
    Throw (TypeError "Cannot read properties of undefined (reading '_on')")).
  { intros n i. rewrite createSubqueryContents_spec. unfold connectWherePredicates.
    rewrite Hw. unfold whereNode. rewrite Hn. reflexivity. }
  unfold createConnectAndParams, createConnectLines, connectEntries. rewrite Ha.
  cbn [bind reduceM]. rewrite reducer_decompose.
  destruct (parentAuthLines args []) as [a p1].
  unfold innerPart, interfaceSubqueries.
  destruct (refNodes args) as [|n rest]; [congruence|].
  destruct (rf_interface (relationField args)); cbn [reduceM]; rewrite Hc; reflexivity.
Qed.

(** [createConnectAndParams] returns a result only when every connect
    entry is skipped for every node it is compiled for: its [where.node]
    is an [_on] filter alone, without an entry for that node. *)
Theorem connect_succeeds_only_when_entries_skipped : forall ctx args r es,
  createConnectLines ctx args = Ok r ->
  connectEntries args = Ok es ->
  forall e n, In e es ->
  (if rf_interface (relationField args) then In n (refNodes args)
   else hd_error (refNodes args) = Some n) ->
  exists node, getp (getp (Some e) "where") "node" = Some (JObj node) /\
               onlyOnWithoutImplementation (node_name n) node = true.
Proof.
  intros ctx args r es H He e n Hin Hn.
  unfold createConnectLines in H. rewrite He in H. cbn [bind] in H.
  exact (connectWherePredicates_skipped _ _ _
           (reduceM_reducer_skipped _ _ _ _ _ _ H e n Hin Hn)).
Qed.

(** When the translation succeeds, each connect entry contributes the
    parent's [WHERE] authorization lines (if any), the [WITH] line of a
    first-level call and, on a non-interface field only, a [CALL] block
    whose body is the empty string. *)
Theorem successful_connect_lines : forall ctx args lines ps es,
  createConnectLines ctx args = Ok (lines, ps) ->
  connectEntries args = Ok es ->
  lines = concat (map (fun _ : JSValue =>
            (fst (parentAuthLines args []) ++ firstLevelLines args ++
             (if rf_interface (relationField args) then [] else callLines ctx args [""]))%list)
            es).
Proof.
  intros ctx args lines ps es H He.
  unfold createConnectLines in H. rewrite He in H. cbn [bind] in H.
  exact (reduceM_reducer_lines _ _ _ _ _ _ _ _ H).
Qed.

(** ** Properties of [selectionSetToResolveTree] *)

Lemma selectionReducer_eq : forall objects interfaces unions f o acc s,
  selectionReducer objects interfaces unions f o acc s =
  match s with
  | SFragmentSpread _ =>
      Throw (PlainError "Fragment spreads are not supported in customResolver requires")
  | SInlineFragment _ None => Ok acc
  | SInlineFragment typeCondition (Some ss) =>
      nestedResolveTree <- nestedSelectionSetToResolveTrees objects interfaces unions f None ss [] ;;
      match typeCondition with
      | Some fieldType =>
          if String.eqb fieldType "" then Throw (PlainError "Cannot find fragment type")
          else Ok (setKey fieldType (JObj nestedResolveTree) acc)
      | None => Throw (PlainError "Cannot find fragment type")
      end
  | SField name selectionSet =>
      nestedResolveTree <-
        match selectionSet with
        | None => Ok []
        | Some ss =>
            fieldType <-
              getNestedType
                (option_map fdn_type (find (fun x => String.eqb (fdn_name x) name) f)) ;;
            match innerObjectFields objects interfaces unions fieldType with
            | None => Throw (PlainError "")
            | Some inner =>
                nestedSelectionSetToResolveTrees objects interfaces unions inner (Some fieldType) ss []
            end
        end ;;
      match o with
      | Some o' =>
          if String.eqb o' "" then Ok (spread acc (generateResolveTree name nestedResolveTree))
          else Ok (setKey o' (JObj (spread (spreadValue [] (assoc o' acc))
                                          (generateResolveTree name nestedResolveTree))) acc)
      | None => Ok (spread acc (generateResolveTree name nestedResolveTree))
      end
  end.
Proof. intros. destruct s as [n [ss|]|tc [ss|]|n]; reflexivity. Qed.





Lemma existsb_eqb_In : forall x l, existsb (String.eqb x) l = true <-> In x l.
Proof.
  intros x l. rewrite existsb_exists. split.
  - intros [y [Hy E]]. apply String.eqb_eq in E. subst. exact Hy.
  - intro H. exists x. split; [exact H | apply String.eqb_refl].
Qed.

Lemma removeDuplicates_fold : forall l, removeDuplicates l = fold_left dedupStep l [].
Proof. reflexivity. Qed.

Lemma dedupStep_nodup : forall l ks, NoDup ks -> NoDup (fold_left dedupStep l ks).
Proof.
  induction l as [|x l IH]; intros ks H; simpl; [exact H|].
  apply IH. unfold dedupStep. destruct (existsb (String.eqb x) ks) eqn:E; [exact H|].
  apply NoDup_app; [exact H | constructor; [intros []|constructor] |].
  intros y Hy [Hxy|[]]. rewrite <- Hxy in Hy. apply existsb_eqb_In in Hy. congruence.
Qed.


Lemma setKey_leaf : forall n ks,
  setKey n (leafResolveTree n) (map (fun k => (k, leafResolveTree k)) ks) =
  map (fun k => (k, leafResolveTree k)) (dedupStep ks n).
Proof.
  intros n ks. unfold dedupStep. induction ks as [|k ks IH]; simpl; [reflexivity|].
  destruct (String.eqb n k) eqn:E; simpl.
  - apply String.eqb_eq in E. subst. reflexivity.
  - rewrite IH. destruct (existsb (String.eqb n) ks); reflexivity.
Qed.

Lemma nested_leaves_top : forall objects interfaces unions f names ks,
  nestedSelectionSetToResolveTrees objects interfaces unions f None
    (map (fun n => SField n None) names) (map (fun k => (k, leafResolveTree k)) ks) =
  Ok (map (fun k => (k, leafResolveTree k)) (fold_left dedupStep names ks)).
Proof.
  intros objects interfaces unions f names. induction names as [|n names IH]; intro ks.
  - reflexivity.
  - cbn [map nestedSelectionSetToResolveTrees]. rewrite selectionReducer_eq. cbn [bind].
    change (spread (map (fun k => (k, leafResolveTree k)) ks) (generateResolveTree n []))
      with (setKey n (leafResolveTree n) (map (fun k => (k, leafResolveTree k)) ks)).
    rewrite setKey_leaf. apply IH.
Qed.



Lemma nested_spread_throws : forall objects interfaces unions m ss f o acc,
  list_sum (map selectionSize ss) < m ->
  existsb hasFragmentSpread ss = true ->
  exists e, nestedSelectionSetToResolveTrees objects interfaces unions f o ss acc = Throw e.
Proof.
  intros objects interfaces unions m. induction m as [|m IH]; intros ss f o acc Hm H;
    [lia|].
  destruct ss as [|s rest]; [discriminate|].
  cbn [map list_sum fold_right] in Hm. cbn [existsb] in H.
  cbn [nestedSelectionSetToResolveTrees]. rewrite selectionReducer_eq.
  assert (Hs1 : 1 <= selectionSize s) by (destruct s as [? [?|]|? [?|]|?]; simpl; lia).
  destruct (hasFragmentSpread s) eqn:Hs.
  - destruct s as [n [ss|]|tc [ss|]|n]; simpl in Hs; try discriminate.
    + cbn [selectionSize list_sum fold_right] in Hm.
      destruct (getNestedType _) as [ft|e]; cbn [bind]; [|eexists; reflexivity].
      destruct (innerObjectFields objects interfaces unions ft) as [inner|];
        [|eexists; reflexivity].
      destruct (IH ss inner (Some ft) [] ltac:(lia) Hs) as [e He]. rewrite He.
      eexists; reflexivity.
    + cbn [selectionSize list_sum fold_right] in Hm.
      destruct (IH ss f None [] ltac:(lia) Hs) as [e He]. rewrite He.
      eexists; reflexivity.
    + eexists; reflexivity.
  - cbn [orb] in H.
    match goal with |- exists e, bind ?m _ = _ => destruct m as [acc1|e] end;
      cbn [bind]; [|eexists; reflexivity].
    apply (IH rest f o acc1); [unfold list_sum in *; lia | exact H].
Qed.

(** Required fields with no sub-selection, at the top of the selection
    set, give one resolve tree each, keyed by the field name, in the order
    of their first occurrence (a repeated field is merged into the first);
    the names are not checked against the fields of the type. *)
Theorem leaf_selections_resolve_in_first_occurrence_order :
  forall objects interfaces unions objectFields names,
  nestedSelectionSetToResolveTrees objects interfaces unions objectFields None
    (map (fun n => SField n None) names) [] =
  Ok (map (fun n => (n, leafResolveTree n)) (removeDuplicates names)).
Proof.
  intros. rewrite removeDuplicates_fold.
  exact (nested_leaves_top objects interfaces unions objectFields names []).
Qed.


(** A fragment spread anywhere in the required selection set, at any
    depth, makes [selectionSetToResolveTree] throw: it never returns a
    resolve tree for it. *)
Theorem fragment_spread_never_resolves :
  forall objects interfaces unions objectFields document ss,
  In (OperationDefinition ss) document ->
  existsb hasFragmentSpread ss = true ->
  exists e, selectionSetToResolveTree objects interfaces unions objectFields document = Throw e.
Proof.
  intros objects interfaces unions objectFields document ss Hin H.
  unfold selectionSetToResolveTree.
  destruct document as [|[ss'|] [|d rest]]; try (eexists; reflexivity).
  destruct Hin as [Heq|[]]. inversion Heq; subst.
  exact (nested_spread_throws objects interfaces unions _ ss objectFields None []
           (Nat.lt_succ_diag_r _) H).
Qed.


(** A required field with a sub-selection is refused when the type has no
    field of that name, or when the field's named type is neither an
    object or interface with fields nor a union. *)
Theorem subselection_needs_known_composite_type :
  forall objects interfaces unions objectFields o n ss rest acc,
  (find (fun x => String.eqb (fdn_name x) n) objectFields = None ->
   nestedSelectionSetToResolveTrees objects interfaces unions objectFields o
     (SField n (Some ss) :: rest) acc = Throw (PlainError NESTED_TYPE_ERROR)) /\
  (forall fd, find (fun x => String.eqb (fdn_name x) n) objectFields = Some fd ->
   innerObjectFields objects interfaces unions (getNestedTypeName (fdn_type fd)) = None ->
   nestedSelectionSetToResolveTrees objects interfaces unions objectFields o
     (SField n (Some ss) :: rest) acc = Throw (PlainError "")).
Proof.
  intros. split.
  - intro H. cbn [nestedSelectionSetToResolveTrees]. rewrite selectionReducer_eq, H.
    reflexivity.
  - intros fd H Hi. cbn [nestedSelectionSetToResolveTrees]. rewrite selectionReducer_eq, H.
    cbn [option_map getNestedType bind]. rewrite Hi. reflexivity.
Qed.

(** ** Properties of [getCustomResolverMeta] *)

(** When the parser of the required fields does not throw, the only error
    [getCustomResolverMeta] raises is the missing resolver one, and only
    for a field of an object type with a [@customResolver] directive and
    no resolver provided; a [@computed] field or an interface field never
    raises it. *)
Theorem missing_resolver_error_conditions :
  forall RT (sel : string -> result RT) st field kind resolvers ifield e,
  (forall s, exists t, sel s = Ok t) ->
  snd (getCustomResolverMeta RT sel st field kind resolvers ifield) = Throw e ->
  kind = ObjectTypeDefinition /\
  fieldDirective field ifield "customResolver" <> None /\
  existsb (String.eqb (field_name field)) resolvers = false /\
  e = PlainError ("Custom resolver for " ++ field_name field ++ " has not been provided").
Proof.
  intros RT sel st field kind resolvers ifield e Hsel H.
  unfold getCustomResolverMeta in H. cbn [snd] in H.
  assert (Hargs : forall a : option ArgumentValue,
    match a with
    | Some (AString s) => fmap Some (sel ("{ " ++ s ++ " }"))
    | Some (AList l) => fmap Some (sel ("{ " ++ join " " (removeDuplicates l) ++ " }"))
    | _ => Ok None
    end <> Throw e).
  { intros [[s|l|]|]; try discriminate;
      [destruct (Hsel ("{ " ++ s ++ " }")) as [t Ht]
      |destruct (Hsel ("{ " ++ join " " (removeDuplicates l) ++ " }")) as [t Ht]];
      rewrite Ht; discriminate. }
  destruct (fieldDirective field ifield "customResolver") as [d|] eqn:Hd;
  destruct (fieldDirective field ifield "computed") as [c|] eqn:Hc;
    try discriminate;
  destruct kind; cbn [andb] in H; try (exfalso; exact (Hargs _ H));
  destruct (existsb (String.eqb (field_name field)) resolvers) eqn:Hr; cbn [negb] in H;
    try (exfalso; exact (Hargs _ H));
  inversion H; subst; repeat split; discriminate.
Qed.


(** ** Witnesses *)

Lemma rootWhereInput_keys_witness :
  assoc "active" (rootWhereInput "Actor"
    [("active", JBool true); ("_on", JObj [("Actor", JObj [("active", JBool false)])])]) =
  Some (JBool true).
Proof.
  rewrite (rootWhereInput_keys "Actor"
    [("active", JBool true); ("_on", JObj [("Actor", JObj [("active", JBool false)])])]
    "active").
  - reflexivity.
  - cbn. repeat constructor; cbn; intuition discriminate.
Defined.

Lemma onWhereInput_follows_key_order_witness :
  assoc "active" (onWhereInput "Actor"
    (("_on", JObj [("Actor", JObj [("active", JBool false)])]) :: [("active", JBool true)])) =
  Some (JBool true) /\
  assoc "active" (onWhereInput "Actor"
    ([("active", JBool true)] ++ [("_on", JObj [("Actor", JObj [("active", JBool false)])])])%list) =
  Some (JBool false).
Proof.
  destruct (onWhereInput_follows_key_order "Actor" [("active", JBool true)]
              (JObj [("Actor", JObj [("active", JBool false)])]) [("active", JBool false)])
    as [Hlast Hfirst].
  - cbn. repeat constructor; cbn; intuition discriminate.
  - cbn. intuition discriminate.
  - cbn. repeat constructor; cbn; intuition discriminate.
  - reflexivity.
  - split; [rewrite Hfirst | rewrite Hlast]; reflexivity.
Defined.

Lemma connect_where_without_node_throws_witness :
  createConnectAndParams noSubscriptions directorConnectWithoutNode =
  Throw (TypeError "Cannot read properties of undefined (reading '_on')").
Proof.
  apply connect_where_without_node_throws.
  - reflexivity.
  - discriminate.
  - reflexivity.
  - reflexivity.
Defined.

Lemma connect_succeeds_only_when_entries_skipped_witness :
  exists node, getp (getp (Some onlySeriesFilter) "where") "node" = Some (JObj node) /\
               onlyOnWithoutImplementation (node_name Actor) node = true.
Proof.
  apply (connect_succeeds_only_when_entries_skipped noSubscriptions
           (productionsConnect [onlySeriesFilter])
           (["WITH this"; "WHERE Movie_CONNECT_where(this)"; "WITH this"], [])
           [onlySeriesFilter]).
  - vm_compute. reflexivity.
  - reflexivity.
  - left. reflexivity.
  - left. reflexivity.
Defined.

Lemma successful_connect_lines_witness :
  ["WITH this"; "WHERE Movie_CONNECT_where(this)"; "WITH this";
   "CALL {"; ""; "}"; "WITH connect_meta + meta AS meta, this"] =
  concat (map (fun _ : JSValue =>
    (fst (parentAuthLines (actorsConnect [onlySeriesFilter] false) []) ++
     firstLevelLines (actorsConnect [onlySeriesFilter] false) ++
     (if rf_interface (relationField (actorsConnect [onlySeriesFilter] false)) then []
      else callLines withSubscriptions (actorsConnect [onlySeriesFilter] false) [""]))%list)
    [onlySeriesFilter]).
Proof.
  apply (successful_connect_lines withSubscriptions (actorsConnect [onlySeriesFilter] false)
           _ [] [onlySeriesFilter]).
  - vm_compute. reflexivity.
  - reflexivity.
Defined.


Lemma fragment_spread_never_resolves_witness :
  exists e, selectionSetToResolveTree [actorTypeDefinition] [] [] movieFieldDefinitions
    [OperationDefinition [SField "title" None; SField "actors" (Some [SFragmentSpread "ActorFields"])]]
  = Throw e.
Proof.
  apply (fragment_spread_never_resolves [actorTypeDefinition] [] [] movieFieldDefinitions _
           [SField "title" None; SField "actors" (Some [SFragmentSpread "ActorFields"])]).
  - left. reflexivity.
  - reflexivity.
Defined.


Lemma subselection_needs_known_composite_type_witness :
  nestedSelectionSetToResolveTrees [actorTypeDefinition] [] [] movieFieldDefinitions None
    [SField "director" (Some [SField "name" None])] [] = Throw (PlainError NESTED_TYPE_ERROR) /\
  nestedSelectionSetToResolveTrees [actorTypeDefinition] [] [] movieFieldDefinitions None
    [SField "title" (Some [SField "length" None])] [] = Throw (PlainError "").
Proof.
  split.
  - apply (proj1 (subselection_needs_known_composite_type [actorTypeDefinition] [] []
                    movieFieldDefinitions None "director" [SField "name" None] [] [])).
    reflexivity.
  - apply (proj2 (subselection_needs_known_composite_type [actorTypeDefinition] [] []
                    movieFieldDefinitions None "title" [SField "length" None] [] [])
             (mkFieldDefinitionNode "title" (NamedType "String"))).
    + reflexivity.
    + reflexivity.
Defined.

Lemma missing_resolver_error_conditions_witness :
  ObjectTypeDefinition = ObjectTypeDefinition /\
  fieldDirective customResolverField None "customResolver" <> None /\
  existsb (String.eqb (field_name customResolverField)) [] = false /\
  PlainError "Custom resolver for fullName has not been provided" =
  PlainError ("Custom resolver for " ++ field_name customResolverField ++ " has not been provided").
Proof.
  apply (missing_resolver_error_conditions string selectionText initialModuleState
           customResolverField ObjectTypeDefinition [] None).
  - intro s. exists s. reflexivity.
  - reflexivity.
Defined.


Lemma connect_with_bind_rules_fails_at_translation_witness :
  exists msg, createConnectAndParams noSubscriptions
    (setRefNodes (actorsConnect [connectByName "a"] false) [GuardedActor])
  = Throw (ReferenceError msg).
Proof.
  eapply (proj1 connect_with_bind_rules_fails_at_translation noSubscriptions
            (setRefNodes (actorsConnect [connectByName "a"] false) [GuardedActor])
            (connectByName "a") [] GuardedActor []).
  - reflexivity.
  - reflexivity.
  - reflexivity.
  - cbv. reflexivity.
Defined.
